(** * git-dirheat: numstat parsing, path tree, aggregation and export

    A shallow embedding of [main.go]: the line loop of [analyzeRepo], the
    tree builder ([NewNode], [ensurePath]), [aggregateCounts] and
    [ToJSONNode], together with the parts of the Go runtime and standard
    library they rely on (64-bit [int], byte strings, [strings.Fields],
    [bufio.Scanner], [range] over a map, [sort.Slice], [encoding/json]'s
    [omitempty]). *)

From Stdlib Require Import ZArith List String Ascii Lia Permutation Sorted.
From stdpp Require Import base option list gmap strings.

Local Open Scope string_scope.
Local Open Scope list_scope.
Local Open Scope Z_scope.

(** ** Go's [int] on the 64-bit release targets (amd64, arm64) *)

Module GoInt.

Definition min_int : Z := - 2 ^ 63.
Definition max_int : Z := 2 ^ 63 - 1.

(** Two's complement wrap-around of a mathematical integer. *)
Definition wrap (z : Z) : Z := (z + 2 ^ 63) mod 2 ^ 64 - 2 ^ 63.

(** [a + b] on [int]. *)
Definition add (a b : Z) : Z := wrap (a + b).

Definition in_range (z : Z) : Prop := min_int <= z <= max_int.

End GoInt.

(** ** Go strings: immutable byte sequences *)

Module GoStrings.

(** [len(s)] *)
Definition len (s : string) : Z := Z.of_nat (String.length s).

Definition bytes (codes : list nat) : string :=
  string_of_list_ascii (List.map ascii_of_nat codes).

(** [s[lo:hi]]; [None] is the run-time panic for bounds out of range. *)
Definition slice (s : string) (lo hi : Z) : option string :=
  if (0 <=? lo) && (lo <=? hi) && (hi <=? len s)
  then Some (String.substring (Z.to_nat lo) (Z.to_nat (hi - lo)) s)
  else None.

(** [strings.HasPrefix] *)
Definition HasPrefix (s pre : string) : bool := String.prefix pre s.

(** [strings.Index]: byte offset of the first occurrence, or -1. *)
Fixpoint IndexFrom (i : Z) (s substr : string) : Z :=
  if HasPrefix s substr then i
  else match s with
       | EmptyString => -1
       | String _ s' => IndexFrom (i + 1) s' substr
       end.

Definition Index (s substr : string) : Z := IndexFrom 0 s substr.

(** [strings.Contains] *)
Definition Contains (s substr : string) : bool := Index s substr >=? 0.

(** The UTF-8 encodings of the runes for which [unicode.IsSpace] holds:
    tab, LF, VT, FF, CR, space, U+0085, U+00A0, U+1680, U+2000..U+200A,
    U+2028, U+2029, U+202F, U+205F, U+3000.  Each multi-byte encoding
    starts with a lead byte, which is never a continuation byte, so a
    byte-wise match at an offset coincides with decoding that rune
    there. *)
Definition spaceRunes : list string :=
  List.map bytes
    [ [9]; [10]; [11]; [12]; [13]; [32];
      [194; 133]; [194; 160];
      [225; 154; 128];
      [226; 128; 128]; [226; 128; 129]; [226; 128; 130]; [226; 128; 131];
      [226; 128; 132]; [226; 128; 133]; [226; 128; 134]; [226; 128; 135];
      [226; 128; 136]; [226; 128; 137]; [226; 128; 138];
      [226; 128; 168]; [226; 128; 169]; [226; 128; 175];
      [226; 129; 159];
      [227; 128; 128] ]%nat.

(** Width in bytes of the white-space rune at the head of [s], 0 when the
    head of [s] is not white space. *)
Definition spaceWidth (s : string) : nat :=
  match List.find (HasPrefix s) spaceRunes with
  | Some w => String.length w
  | None => 0
  end.

Definition flush (cur : string) : list string :=
  match cur with EmptyString => [] | _ => [cur] end.

(** [strings.Fields]: the maximal runs of non-space runes.  [skip] counts
    the remaining bytes of a multi-byte space rune, [cur] is the field
    being read. *)
Fixpoint FieldsFrom (skip : nat) (cur s : string) : list string :=
  match s with
  | EmptyString => flush cur
  | String c s' =>
      match skip with
      | S k => FieldsFrom k cur s'
      | O =>
          match spaceWidth s with
          | O => FieldsFrom 0 (cur +:+ String c EmptyString) s'
          | S w => flush cur ++ FieldsFrom w EmptyString s'
          end
      end
  end.

Definition Fields (s : string) : list string := FieldsFrom 0 EmptyString s.

Definition revString (s : string) : string :=
  string_of_list_ascii (List.rev (list_ascii_of_string s)).

(** Drop leading white-space runes ([strings.TrimLeftFunc] with
    [unicode.IsSpace]). *)
Fixpoint trimSpaceLeft (skip : nat) (s : string) : string :=
  match s with
  | EmptyString => EmptyString
  | String _ s' =>
      match skip with
      | S k => trimSpaceLeft k s'
      | O => match spaceWidth s with
             | O => s
             | S w => trimSpaceLeft w s'
             end
      end
  end.

(** Width of the white-space rune that ends at the head of the reversed
    string [r]. *)
Definition spaceWidthRev (r : string) : nat :=
  match List.find (HasPrefix r) (List.map revString spaceRunes) with
  | Some w => String.length w
  | None => 0
  end.

Fixpoint trimSpaceLeftRev (skip : nat) (r : string) : string :=
  match r with
  | EmptyString => EmptyString
  | String _ r' =>
      match skip with
      | S k => trimSpaceLeftRev k r'
      | O => match spaceWidthRev r with
             | O => r
             | S w => trimSpaceLeftRev w r'
             end
      end
  end.

(** [strings.TrimSpace] *)
Definition TrimSpace (s : string) : string :=
  revString (trimSpaceLeftRev 0 (revString (trimSpaceLeft 0 s))).

(** Membership of a byte in an ASCII cutset. *)
Definition inCutset (cutset : string) (c : ascii) : bool :=
  existsb (Ascii.eqb c) (list_ascii_of_string cutset).

(** [strings.TrimLeft] for an ASCII cutset. *)
Fixpoint TrimLeft (s cutset : string) : string :=
  match s with
  | EmptyString => EmptyString
  | String c s' => if inCutset cutset c then TrimLeft s' cutset else s
  end.

(** [strings.TrimRight] for an ASCII cutset. *)
Definition TrimRight (s cutset : string) : string :=
  revString (TrimLeft (revString s) cutset).

(** [strings.Trim] for an ASCII cutset. *)
Definition Trim (s cutset : string) : string :=
  TrimRight (TrimLeft s cutset) cutset.

(** [strings.TrimPrefix] *)
Definition TrimPrefix (s pre : string) : string :=
  if HasPrefix s pre
  then String.substring (String.length pre) (String.length s - String.length pre) s
  else s.

(** [strings.HasSuffix] *)
Definition HasSuffix (s suf : string) : bool :=
  HasPrefix (revString s) (revString suf).

(** [strings.TrimSuffix] *)
Definition TrimSuffix (s suf : string) : string :=
  if HasSuffix s suf
  then String.substring 0 (String.length s - String.length suf) s
  else s.

(** [strings.Split] for a non-empty separator: cut at every
    non-overlapping occurrence, left to right.  [skip] counts the
    remaining bytes of the separator just matched. *)
Fixpoint SplitFrom (skip : nat) (cur s sep : string) : list string :=
  match s with
  | EmptyString => [cur]
  | String c s' =>
      match skip with
      | S k => SplitFrom k cur s' sep
      | O =>
          if HasPrefix s sep
          then cur :: SplitFrom (String.length sep - 1) EmptyString s' sep
          else SplitFrom 0 (cur +:+ String c EmptyString) s' sep
      end
  end.

Definition Split (s sep : string) : list string := SplitFrom 0 EmptyString s sep.

(** [strings.ReplaceAll] of one byte by another. *)
Fixpoint replaceByte (old new : ascii) (s : string) : string :=
  match s with
  | EmptyString => EmptyString
  | String c s' =>
      String (if Ascii.eqb c old then new else c) (replaceByte old new s')
  end.

End GoStrings.

(** ** [path/filepath] *)

Module GoFilepath.

(** The operating systems of the release matrix, up to their path
    separator ([linux] and [darwin] agree). *)
Inductive GOOS := Unix | Windows.

(** [filepath.Separator] *)
Definition Separator (os : GOOS) : ascii :=
  match os with
  | Unix => "/"%char
  | Windows => "\"%char
  end.

(** [filepath.ToSlash] *)
Definition ToSlash (os : GOOS) (path : string) : string :=
  if Ascii.eqb (Separator os) "/"%char then path
  else GoStrings.replaceByte (Separator os) "/"%char path.

End GoFilepath.

(** ** [bufio.Scanner] with the default [ScanLines] split function *)

Module GoScanner.
Import GoStrings.

(** [bufio.MaxScanTokenSize] *)
Definition MaxScanTokenSize : Z := 64 * 1024.

Definition newline : string := bytes [10%nat].
Definition carriageReturn : string := bytes [13%nat].

(** The text cut at every newline; a final unterminated line counts only
    when it is not empty. *)
Definition rawLines (text : string) : list string :=
  let segs := Split text newline in
  match List.last segs EmptyString with
  | EmptyString => List.removelast segs
  | _ => segs
  end.

(** A line that does not fit the scanner's buffer makes [Scan] stop with
    [ErrTooLong]. *)
Definition tooLong (raw : string) : bool := MaxScanTokenSize <=? len raw.

(** [dropCR] *)
Definition dropCR (raw : string) : string := TrimSuffix raw carriageReturn.

(** The successive values of [scanner.Text()]. *)
Fixpoint tokens (raws : list string) : list string :=
  match raws with
  | [] => []
  | raw :: rest => if tooLong raw then [] else dropCR raw :: tokens rest
  end.

(** [scanner.Err() != nil] once the loop is over. *)
Definition failed (raws : list string) : bool := existsb tooLong raws.

End GoScanner.

(** ** The line loop of [analyzeRepo] (main.go, lines 156-239) *)

Module Parser.
Import GoStrings GoFilepath GoScanner.

(** The three [log.Printf("WARN: ...")] calls of the loop, and the one
    after it. *)
Inductive Warning :=
| WarnRename (line : string)      (* Could not robustly parse rename line *)
| WarnNumeric (line : string)     (* Could not parse numeric fields in rename line *)
| WarnMalformed (line : string)   (* Skipping malformed numstat line (expected 3+ fields) *)
| WarnScanner.                    (* Error reading git log output *)

(** The variables the loop updates. *)
Record State := mkState {
  fileChangeCounts : gmap string Z;
  processedLines : Z;
  warnings : list Warning
}.

Definition initial : State := mkState ∅ 0 [].

Definition countLine (st : State) : State :=
  mkState (fileChangeCounts st) (GoInt.add (processedLines st) 1) (warnings st).

Definition warn (w : Warning) (st : State) : State :=
  mkState (fileChangeCounts st) (processedLines st) (warnings st ++ [w]).

(** [fileChangeCounts[p] += amount]; a missing key reads as 0. *)
Definition bump (p : string) (amount : Z) (st : State) : State :=
  mkState (<[p := GoInt.add (default 0 (fileChangeCounts st !! p)) amount]>
             (fileChangeCounts st))
          (processedLines st) (warnings st).

(** Lines 175-197: the destination of a rename line; the empty string
    when neither notation applies.  [None] is a run-time panic (slice or
    index out of range). *)
Definition renamePath (line : string) : option string :=
  let leftCurly := Index line "{" in
  let rightCurly := Index line "}" in
  let arrow := Index line "=>" in
  if (leftCurly >=? 0) && (rightCurly >? leftCurly)
     && (arrow >? leftCurly) && (arrow <? rightCurly)
  then
    pre ← slice line 0 leftCurly;
    inside ← slice line (leftCurly + 1) rightCurly;
    let insideParts := Split inside "=>" in
    if Z.of_nat (length insideParts) =? 2
    then dst ← insideParts !! 1%nat; Some (TrimSpace (pre +:+ dst))
    else Some EmptyString
  else if (leftCurly =? 0) && (arrow >? 0)
  then
    inside ← slice line 1 (len line);
    let arrow := Index inside "=>" in
    if arrow >? 0
    then
      right ← slice inside (arrow + 2) (len inside);
      let right := TrimPrefix right " " in
      let right := TrimSuffix right "}" in
      Some (TrimSpace right)
    else Some EmptyString
  else Some EmptyString.

(** Lines 168-218: either a warning (the line is skipped) or the triple
    [(addedStr, deletedStr, filePath)]. *)
Definition splitLine (line : string)
  : option (Warning + string * string * string) :=
  let parts := Fields line in
  if Z.of_nat (length parts) <? 3
  then
    if Contains line "=>"
    then
      filePath ← renamePath line;
      if String.eqb filePath EmptyString
      then Some (inl (WarnRename line))
      else if Z.of_nat (length parts) >=? 2
      then
        addedStr ← parts !! 0%nat;
        deletedStr ← parts !! 1%nat;
        Some (inr (addedStr, deletedStr, filePath))
      else Some (inl (WarnNumeric line))
    else Some (inl (WarnMalformed line))
  else
    addedStr ← parts !! 0%nat;
    deletedStr ← parts !! 1%nat;
    filePath ← parts !! 2%nat;
    Some (inr (addedStr, deletedStr, filePath)).

(** Lines 220-225. *)
Definition changeAmount (addedStr deletedStr : string) : Z :=
  if String.eqb addedStr "-" || String.eqb deletedStr "-" then 1 else 1.

(** Lines 227-228. *)
Definition normalize (os : GOOS) (filePath : string) : string :=
  TrimLeft (ToSlash os (TrimSpace filePath)) "{ ".

(** One iteration of [for scanner.Scan()]. *)
Definition processLine (os : GOOS) (st : State) (line : string)
  : option State :=
  if String.eqb line EmptyString then Some st
  else
    let st := countLine st in
    r ← splitLine line;
    match r with
    | inl w => Some (warn w st)
    | inr (addedStr, deletedStr, filePath) =>
        let amount := changeAmount addedStr deletedStr in
        let normalizedPath := normalize os filePath in
        if negb (String.eqb normalizedPath EmptyString)
        then Some (bump normalizedPath amount st)
        else Some st
    end.

(** The whole loop over the scanner's tokens. *)
Fixpoint processLines (os : GOOS) (st : State) (lines : list string)
  : option State :=
  match lines with
  | [] => Some st
  | line :: rest => st' ← processLine os st line; processLines os st' rest
  end.

(** Lines 157-238 on the text that [git log --numstat] printed. *)
Definition parse (os : GOOS) (output : string) : option State :=
  let raws := rawLines output in
  st ← processLines os initial (tokens raws);
  Some (if failed raws then warn WarnScanner st else st).

(** A line is accepted when the loop reaches the update of
    [fileChangeCounts] for it; [accepted os line = Some p] gives the key
    that is updated. *)
Definition accepted (os : GOOS) (line : string) : option string :=
  if String.eqb line EmptyString then None
  else match splitLine line with
       | Some (inr (_, _, filePath)) =>
           let p := normalize os filePath in
           if String.eqb p EmptyString then None else Some p
       | _ => None
       end.

(** How many of [lines] are accepted for the key [p]. *)
Definition occurrences (os : GOOS) (p : string) (lines : list string) : nat :=
  length (List.filter (λ line, bool_decide (accepted os line = Some p)) lines).

End Parser.

(** ** What the Go runtime leaves open

    [range] over a map visits the entries in an unspecified order, and
    [sort.Slice] is not stable.  An execution fixes both choices; the
    program is modelled for an arbitrary such choice, of which only the
    two laws below are known: [range] visits every entry once, and the
    sorted slice holds the same elements with no element in front of one
    that [less] puts before it. *)

Class Runtime := {
  (** the order in which [range] visits the entries of a map *)
  rangeOrder : ∀ A : Type, list (string * A) → list (string * A);
  rangeOrder_perm : ∀ A (l : list (string * A)), Permutation (rangeOrder A l) l;
  (** [sort.Slice] for a given [less] *)
  sortSlice : ∀ A : Type, (A → A → bool) → list A → list A;
  sortSlice_perm : ∀ A less (l : list A), Permutation (sortSlice A less l) l;
  sortSlice_sorted : ∀ A (less : A → A → bool) (l : list A),
    (∀ a b, less a b = true → less b a = false) →
    (∀ a b c, less b a = false → less c b = false → less c a = false) →
    StronglySorted (λ a b, less b a = false) (sortSlice A less l)
}.

Arguments rangeOrder {_ _} _.
Arguments sortSlice {_ _} _ _.

(** ** The tree of directories and files (main.go, lines 17-83) *)

Module Tree.
Import GoStrings.

(** [type Node struct].  [Children] is a Go map; it is kept as an
    association list with unique keys, in the order in which the keys
    were first stored. *)
#[warnings="-register-all"]
Inductive Node := mkNode {
  Name : string;
  Path : string;
  Value : Z;
  IsFile : bool;
  Children : list (string * Node)
}.

(** [NewNode] *)
Definition NewNode (name path : string) (isFile : bool) : Node :=
  mkNode name path 0 isFile [].

(** [children[part]] *)
Fixpoint lookupChild (part : string) (cs : list (string * Node)) : option Node :=
  match cs with
  | [] => None
  | (k, c) :: rest => if String.eqb k part then Some c else lookupChild part rest
  end.

(** The map after the node stored under the existing key [part] has
    become [child]. *)
Fixpoint updateChild (part : string) (child : Node) (cs : list (string * Node))
  : list (string * Node) :=
  match cs with
  | [] => []
  | (k, c) :: rest =>
      if String.eqb k part then (k, child) :: rest
      else (k, c) :: updateChild part child rest
  end.

Section EnsurePath.

(** [filepath.Join], whose result is only stored in [Path]. *)
Variable Join : string → string → string.

(** [ensurePath]: the loop from index [i] on, standing at [current].
    The result is the subtree at [current] after the walk, and the
    keys that lead from [current] to the node the method returns. *)
Fixpoint ensurePathFrom (i n : Z) (currentPath : string) (current : Node)
         (pathParts : list string) : Node * list string :=
  match pathParts with
  | [] => (current, [])
  | part :: rest =>
      if String.eqb part EmptyString
      then ensurePathFrom (i + 1) n currentPath current rest
      else
        let currentPath := Join currentPath part in
        let isFile := i =? n - 1 in
        match lookupChild part (Children current) with
        | Some child =>
            let (child', addr) := ensurePathFrom (i + 1) n currentPath child rest in
            (mkNode (Name current) (Path current) (Value current) (IsFile current)
                    (updateChild part child' (Children current)),
             part :: addr)
        | None =>
            let child := NewNode part currentPath isFile in
            let (child', addr) := ensurePathFrom (i + 1) n currentPath child rest in
            (mkNode (Name current) (Path current) (Value current) false
                    (Children current ++ [(part, child')]),
             part :: addr)
        end
  end.

Definition ensurePath (n : Node) (pathParts : list string) : Node * list string :=
  ensurePathFrom 0 (Z.of_nat (length pathParts)) "/" n pathParts.

End EnsurePath.

(** The node that the keys [addr] lead to. *)
Fixpoint nodeAt (addr : list string) (n : Node) : option Node :=
  match addr with
  | [] => Some n
  | k :: rest => c ← lookupChild k (Children n); nodeAt rest c
  end.

(** [p.Value = v] for the pointer [p] that [addr] stands for. *)
Fixpoint setValue (addr : list string) (v : Z) (n : Node) : Node :=
  match addr with
  | [] => mkNode (Name n) (Path n) v (IsFile n) (Children n)
  | k :: rest =>
      match lookupChild k (Children n) with
      | Some c =>
          mkNode (Name n) (Path n) (Value n) (IsFile n)
                 (updateChild k (setValue rest v c) (Children n))
      | None => n
      end
  end.

(** Lines 242-245, for [base = filepath.Base(path)]. *)
Definition rootDirName (base : string) : string :=
  if String.eqb base "." || String.eqb base "/" then "repository_root" else base.

(** Lines 252-256. *)
Definition pathPartsOf (filePath : string) : list string :=
  List.map (λ part, Trim part " {}") (Split filePath "/").

(** One iteration of the loop of lines 248-259. *)
Definition insertEntry (Join : string → string → string)
           (rootDir : Node) (entry : string * Z) : Node :=
  let (filePath, count) := entry in
  if count =? 0 then rootDir
  else
    let (rootDir', fileNode) := ensurePath Join rootDir (pathPartsOf filePath) in
    setValue fileNode count rootDir'.

(** Lines 246-259, for the entries in the order [range] visits them. *)
Definition buildTree (Join : string → string → string)
           (name : string) (entries : list (string * Z)) : Node :=
  fold_left (insertEntry Join) entries (NewNode name "/" false).

Section Aggregate.
Context `{Runtime}.

(** [aggregateCounts]: the node after the call and the value returned.
    The calls on the children do not depend on each other, so they are
    made in the stored order and their results are then summed in the
    order of [range]. *)
Fixpoint aggregateCounts (n : Node) : Node * Z :=
  if IsFile n then (n, Value n)
  else
    let results :=
      List.map (λ kc : string * Node, let (k, c) := kc in (k, aggregateCounts c))
               (Children n) in
    let sum :=
      fold_left (λ sum (r : string * (Node * Z)), GoInt.add sum (snd (snd r)))
                (rangeOrder results) 0 in
    (mkNode (Name n) (Path n) sum (IsFile n)
            (List.map (λ r : string * (Node * Z), (fst r, fst (snd r))) results),
     sum).

End Aggregate.

End Tree.

(** ** The export structure (main.go, lines 26-31 and 85-108) *)

Module Exporter.
Import Tree.

(** [type JSONNode struct].  [jChildren] is a Go slice: [None] is the nil
    slice, [Some l] a slice that was made. *)
#[warnings="-register-all"]
Inductive JSONNode := mkJSONNode {
  jName : string;
  jValue : Z;
  jChildren : option (list JSONNode)
}.

(** The [less] function handed to [sort.Slice] (line 103). *)
Definition less (a b : JSONNode) : bool := jValue a >? jValue b.

Section ToJSON.
Context `{Runtime}.

(** [ToJSONNode].  As in [aggregateCounts] the recursive calls are made in
    the stored order, and their results are then visited in the order of
    [range]. *)
Fixpoint ToJSONNode (n : Node) : JSONNode :=
  mkJSONNode (Name n) (Value n)
    (if Z.of_nat (length (Children n)) >? 0
     then
       let converted :=
         List.map (λ kc : string * Node,
                     let (k, child) := kc in (k, (Value child, ToJSONNode child)))
                  (Children n) in
       let included :=
         List.filter (λ r : string * (Z * JSONNode), fst (snd r) >? 0)
                     (rangeOrder converted) in
       Some (sortSlice less (List.map (λ r, snd (snd r)) included))
     else None).

End ToJSON.

(** The values [encoding/json] can produce for a [JSONNode]. *)
#[warnings="-register-all"]
Inductive JSON :=
| JString (s : string)
| JNumber (z : Z)
| JArray (items : list JSON)
| JObject (fields : list (string * JSON)).

(** [json.Marshal] of a [JSONNode], following the struct tags: [name] and
    [value] are always written; [children] has [omitempty], which leaves
    out a slice of length zero, nil or not. *)
Fixpoint encode (j : JSONNode) : JSON :=
  JObject
    ([("name", JString (jName j)); ("value", JNumber (jValue j))]
     ++ match jChildren j with
        | Some (c :: cs) => [("children", JArray (List.map encode (c :: cs)))]
        | _ => []
        end).



(** The elements of [jChildren], none for the nil slice. *)
Definition childList (j : JSONNode) : list JSONNode := default [] (jChildren j).

(** Every node of an exported tree, the root first. *)
Fixpoint exported (j : JSONNode) : list JSONNode :=
  j :: match jChildren j with
       | Some l =>
           (fix below (cs : list JSONNode) : list JSONNode :=
              match cs with
              | [] => []
              | c :: rest => exported c ++ below rest
              end) l
       | None => []
       end.

(** The test of line 96. *)
Definition qualifies (kc : string * Node) : bool := Value (snd kc) >? 0.

(** Values in descending order. *)
Definition descending (l : list JSONNode) : Prop :=
  StronglySorted (λ a b, jValue b ≤ jValue a) l.

End Exporter.

(** ** [analyzeRepo] after the text of [git log] has been obtained *)

Module Pipeline.
Import GoFilepath Parser Tree Exporter.

Section Analyze.
Context `{Runtime}.
Variable os : GOOS.
Variable Join : string → string → string.

(** Lines 156-272: [base] is [filepath.Base(path)], [output] the text
    printed by [git log --numstat].  [None] is a run-time panic. *)
Definition analyze (base output : string) : option Node :=
  st ← parse os output;
  let entries := rangeOrder (map_to_list (fileChangeCounts st)) in
  let rootDir := buildTree Join (rootDirName base) entries in
  Some (fst (aggregateCounts rootDir)).

(** The handler of [/data]: the value that is encoded. *)
Definition serve (base output : string) : option JSON :=
  repoData ← analyze base output;
  Some (encode (ToJSONNode repoData)).

End Analyze.

End Pipeline.

(** ** Two executions of the runtime

    Both sort by insertion, which is stable; they differ in the order in
    which [range] visits a map. *)

Module Runtimes.

(** Insert [x] in front of the first element that [less] does not put
    before it. *)
Fixpoint insertBy {A : Type} (less : A → A → bool) (x : A) (l : list A) : list A :=
  match l with
  | [] => [x]
  | y :: rest => if less y x then y :: insertBy less x rest else x :: y :: rest
  end.

Definition insertionSort {A : Type} (less : A → A → bool) (l : list A) : list A :=
  fold_right (insertBy less) [] l.

(** [range] in the order of first insertion. *)
Definition inOrder {A : Type} (l : list (string * A)) : list (string * A) := l.

(** [range] in the opposite order. *)
Definition backwards {A : Type} (l : list (string * A)) : list (string * A) := rev l.

End Runtimes.

(** ** Vocabulary for statements about trees *)

Module TreeSpec.
Import GoStrings Tree.

(** Every node of the tree, the root first. *)
Fixpoint nodes (n : Node) : list Node :=
  n :: (fix below (cs : list (string * Node)) : list Node :=
          match cs with
          | [] => []
          | kc :: rest => ((let (k, c) := kc in nodes c) ++ below rest)%list
          end) (Children n).

(** The nodes marked as files. *)
Definition files (n : Node) : list Node := List.filter IsFile (nodes n).

Definition sumZ (l : list Z) : Z := fold_right Z.add 0 l.

(** The values of the immediate children. *)
Definition childValues (n : Node) : list Z :=
  List.map (λ kc : string * Node, Value (snd kc)) (Children n).

(** The sum of the values of the file nodes. *)
Definition leafSum (n : Node) : Z := sumZ (List.map Value (files n)).

(** The sum of the values stored in all nodes. *)
Definition totalValue (n : Node) : Z := sumZ (List.map Value (nodes n)).

(** No node is marked as a file and has children. *)
Definition wellFormed (n : Node) : Prop :=
  Forall (λ d, IsFile d = true → Children d = []) (nodes n).

(** [Children] is a map at every node: no key occurs twice, and every
    child is stored under its own name. *)
Definition keyed (n : Node) : Prop :=
  Forall (λ d, NoDup (List.map fst (Children d))
               ∧ Forall (λ kc : string * Node, Name (snd kc) = fst kc) (Children d))
         (nodes n).

(** All stored values are non-negative. *)
Definition nonNegative (n : Node) : Prop := Forall (λ d, 0 ≤ Value d) (nodes n).

(** A directory holds the sum of the values of its children. *)
Definition conserved (n : Node) : Prop :=
  Forall (λ d, IsFile d = false → Value d = sumZ (childValues d)) (nodes n).

(** The keys that [ensurePath] follows for [filePath]: the trimmed
    segments that are not empty. *)
Definition address (filePath : string) : list string :=
  List.filter (λ part, negb (String.eqb part EmptyString)) (pathPartsOf filePath).



(** The sum of the weights of a list of entries. *)
Definition weightSum (entries : list (string * Z)) : Z :=
  sumZ (List.map snd entries).

End TreeSpec.

(** ** The lines quoted in the specification *)

Module Samples.
Import GoStrings.

Definition tab : string := bytes [9%nat].

(** ["3\t1\tsrc/app.go"] *)
Definition normalLine : string := "3" +:+ tab +:+ "1" +:+ tab +:+ "src/app.go".

(** ["0\t0\tsrc/{old.go => new.go}"] *)
Definition partialRename : string :=
  "0" +:+ tab +:+ "0" +:+ tab +:+ "src/{old.go => new.go}".

(** ["1\t0\t{old/path.go => new/path.go}"] *)
Definition wholeRename : string :=
  "1" +:+ tab +:+ "0" +:+ tab +:+ "{old/path.go => new/path.go}".

Definition garbage : string := "garbage text no tabs".

(** [filepath.Join currentPath part] on a Unix system, for the arguments
    that [ensurePath] passes when no segment is [.] or [..]. *)
Definition join (currentPath part : string) : string :=
  if String.eqb currentPath "/" then "/" +:+ part
  else currentPath +:+ "/" +:+ part.

(** The weight map of the last example of the specification, in the
    order in which [range] happens to visit it. *)
Definition threeFiles : list (string * Z) :=
  [("dir/a.go", 1); ("dir/sub/b.go", 1); ("other.go", 1)].

(** Two files of equal weight, [a] stored before [b]. *)
Definition tie : list (string * Z) := [("a", 1); ("b", 1)].




End Samples.

(** ** Counting lines *)

Module ParserSpec.
Import GoFilepath Parser.

(** The lines that reach the update of [fileChangeCounts]. *)
Definition acceptedCount (os : GOOS) (lines : list string) : nat :=
  length (List.filter (λ line, bool_decide (is_Some (accepted os line))) lines).

(** The lines that are not empty. *)
Definition nonEmptyCount (lines : list string) : nat :=
  length (List.filter (λ line, negb (String.eqb line EmptyString)) lines).

End ParserSpec.

(** ** Texts made of lines *)

Module ScannerSpec.
Import GoStrings GoScanner.

(** The text that consists of the given lines, each ended by a newline. *)
Definition unlines (ls : list string) : string :=
  fold_right (λ l rest, l +:+ newline +:+ rest) EmptyString ls.

(** The same with [CR LF] line ends. *)
Definition unlinesCRLF (ls : list string) : string :=
  unlines (List.map (λ l, l +:+ carriageReturn) ls).

(** [n] copies of the byte [c]. *)
Fixpoint replicate (n : nat) (c : ascii) : string :=
  match n with
  | O => EmptyString
  | S k => String c (replicate k c)
  end.

(** A line that just exceeds the scanner's buffer. *)
Definition overlong : string := replicate (Z.to_nat MaxScanTokenSize) "x"%char.

End ScannerSpec.

(** ** More vocabulary for trees *)

Module TreeSpec2.
Import GoStrings Tree TreeSpec.

(** The tree without the values of its directories: names, paths, kinds,
    keys and their order, and the values of the files. *)
Fixpoint skeleton (n : Node) : Node :=
  mkNode (Name n) (Path n) (if IsFile n then Value n else 0) (IsFile n)
         (List.map (λ kc : string * Node, let (k, c) := kc in (k, skeleton c))
                   (Children n)).

(** Neither list of keys is a prefix of the other. *)
Definition apart (a b : list string) : Prop :=
  ¬ a `prefix_of` b ∧ ¬ b `prefix_of` a.

(** A weight map in which no path addresses a node on the way to the node
    of another path, and every path ends in a segment that is not empty
    once trimmed. *)
Fixpoint separated (entries : list (string * Z)) : Prop :=
  match entries with
  | [] => True
  | e :: rest =>
      List.last (pathPartsOf (fst e)) EmptyString ≠ EmptyString
      ∧ Forall (λ e', apart (address (fst e)) (address (fst e'))) rest
      ∧ separated rest
  end.

(** The tree holds the entries [E] and nothing else: every node lies on
    the way to the node of an entry, the files are the nodes of the
    entries, directories hold no value of their own, the stored values add
    up to the weights, and every entry is found as a file with its weight. *)
Definition faithful (E : list (string * Z)) (t : Node) : Prop :=
  (∀ addr, is_Some (nodeAt addr t) →
           addr = [] ∨ ∃ e, e ∈ E ∧ addr `prefix_of` address (fst e))
  ∧ (∀ addr d, nodeAt addr t = Some d → IsFile d = true →
               ∃ e, e ∈ E ∧ addr = address (fst e))
  ∧ (∀ addr d, nodeAt addr t = Some d → IsFile d = false → Value d = 0)
  ∧ totalValue t = weightSum E
  ∧ (∀ e, e ∈ E → ∃ d, nodeAt (address (fst e)) t = Some d
                       ∧ IsFile d = true ∧ Value d = snd e).

End TreeSpec2.

(** ** Getting the text: [analyzeRepo], lines 119-154

    The file system and [git] are outside the program.  An execution is
    given by what they answer to each request the function can make, in
    the order of the source. *)

Module Acquisition.
Import GoFilepath Parser Tree Exporter Pipeline.

(** The answer of [os.Stat(gitDir)], as far as line 121 looks at it. *)
Inductive StatResult :=
| StatFound
| StatNotExist      (* an error for which [os.IsNotExist] holds *)
| StatOtherError.   (* any other error *)

(** The answer of [cmd.CombinedOutput()]: the text printed, and the
    error, [None] for [nil]. *)
Record CmdResult := mkCmdResult {
  cmdOutput : string;
  cmdErr : option string
}.

Record World := mkWorld {
  statGitDir : StatResult;       (* line 121 *)
  firstLog : CmdResult;          (* line 128: git log --numstat *)
  fetchUnshallow : CmdResult;    (* line 135: git fetch --unshallow *)
  fetchPlain : CmdResult;        (* line 140: git fetch *)
  secondLog : CmdResult          (* line 147: git log --numstat *)
}.

(** The commands that were run. *)
Inductive Command := GitLog | GitFetchUnshallow | GitFetch.

(** The two errors that [analyzeRepo] returns. *)
Inductive AnalyzeError :=
| NotARepository                 (* line 122 *)
| GitLogFailed (err : string).   (* line 151 *)

(** Lines 120-154: the commands run, and the error returned or the text
    that goes on to the line loop. *)
Definition acquire (w : World) : list Command * (AnalyzeError + string) :=
  match statGitDir w with
  | StatNotExist => ([], inl NotARepository)
  | _ =>
      match cmdErr (firstLog w) with
      | None => ([GitLog], inr (cmdOutput (firstLog w)))
      | Some _ =>
          let fetches :=
            match cmdErr (fetchUnshallow w) with
            | None => [GitFetchUnshallow]
            | Some _ => [GitFetchUnshallow; GitFetch]
            end in
          let trace := [GitLog] ++ fetches ++ [GitLog] in
          match cmdErr (secondLog w) with
          | None => (trace, inr (cmdOutput (secondLog w)))
          | Some err => (trace, inl (GitLogFailed err))
          end
      end
  end.

Section AnalyzeRepo.
Context `{Runtime}.
Variable os : GOOS.
Variable Join : string → string → string.

(** [analyzeRepo]: the commands run and what is returned, an error or the
    root; [None] is a run-time panic.  [base] is [filepath.Base(path)]. *)
Definition analyzeRepo (w : World) (base : string)
  : list Command * option (AnalyzeError + Node) :=
  match acquire w with
  | (trace, inl err) => (trace, Some (inl err))
  | (trace, inr output) => (trace, inr <$> analyze os Join base output)
  end.

End AnalyzeRepo.

End Acquisition.

(** * Properties *)

(** ** Machine integers *)

Module GoIntFacts.
Import GoInt.

Lemma wrap_in_range z : in_range z → wrap z = z.
Proof.
  unfold in_range, min_int, max_int, wrap. intros Hz.
  rewrite Z.mod_small; lia.
Qed.

Lemma wrap_range z : in_range (wrap z).
Proof.
  unfold in_range, min_int, max_int, wrap.
  pose proof (Z.mod_pos_bound (z + 2 ^ 63) (2 ^ 64)). lia.
Qed.

Lemma wrap_wrap_add a b : wrap (wrap a + b) = wrap (a + b).
Proof.
  unfold wrap.
  replace ((a + 2 ^ 63) mod 2 ^ 64 - 2 ^ 63 + b + 2 ^ 63)
    with ((a + 2 ^ 63) mod 2 ^ 64 + b) by lia.
  rewrite Zplus_mod_idemp_l. f_equal. f_equal. lia.
Qed.

Lemma add_comm a b : add a b = add b a.
Proof. unfold add. f_equal. lia. Qed.

Lemma add_assoc a b c : add (add a b) c = add a (add b c).
Proof.
  unfold add. rewrite wrap_wrap_add.
  rewrite (Z.add_comm a (wrap (b + c))), wrap_wrap_add. f_equal. lia.
Qed.

Lemma add_exact a b : in_range (a + b) → add a b = a + b.
Proof. apply wrap_in_range. Qed.

End GoIntFacts.

(** ** Strings *)

Module GoStringsFacts.
Import GoStrings.

Lemma prefix_length p s : String.prefix p s = true → (String.length p ≤ String.length s)%nat.
Proof.
  revert s. induction p as [|c p IH]; intros s Hp; simpl; [lia|].
  destruct s as [|d s]; simpl in *; [discriminate|].
  destruct (ascii_dec c d); [|discriminate].
  specialize (IH _ Hp). lia.
Qed.

(** A successful [Index] leaves room for the substring it found. *)
Lemma IndexFrom_bounds s substr i :
  IndexFrom i s substr = -1 ∨
  (i ≤ IndexFrom i s substr ∧ IndexFrom i s substr - i + len substr ≤ len s).
Proof.
  revert i. induction s as [|c s IH]; intros i; cbn [IndexFrom].
  - destruct (HasPrefix "" substr) eqn:Hp; [|by left].
    right. apply prefix_length in Hp. unfold len. simpl in *. lia.
  - destruct (HasPrefix (String c s) substr) eqn:Hp.
    + right. apply prefix_length in Hp. unfold len. simpl in *. lia.
    + destruct (IH (i + 1)) as [->|[H1 H2]]; [by left|right].
      unfold len in *. cbn [String.length]. lia.
Qed.

Lemma Index_bounds s substr :
  Index s substr = -1 ∨ (0 ≤ Index s substr ∧ Index s substr + len substr ≤ len s).
Proof.
  unfold Index. destruct (IndexFrom_bounds s substr 0) as [?|[? ?]]; [by left|right; lia].
Qed.

Lemma slice_is_Some s lo hi :
  0 ≤ lo → lo ≤ hi → hi ≤ len s → is_Some (slice s lo hi).
Proof.
  intros H1 H2 H3. unfold slice.
  assert (((0 <=? lo) && (lo <=? hi) && (hi <=? len s)) = true) as ->; [|eauto].
  rewrite !andb_true_iff, !Z.leb_le. lia.
Qed.

End GoStringsFacts.

(** ** The line loop *)

Module ParserFacts.
Import GoStrings GoStringsFacts GoFilepath GoScanner Parser.

(** Every slice and index expression of lines 175-197 is in range. *)
Lemma renamePath_total line : is_Some (renamePath line).
Proof.
  unfold renamePath.
  destruct (Index_bounds line "{") as [Hl|[Hl1 Hl2]];
  destruct (Index_bounds line "}") as [Hr|[Hr1 Hr2]];
  destruct (Index_bounds line "=>") as [Ha|[Ha1 Ha2]];
  change (len "{") with 1 in *; change (len "}") with 1 in *;
  change (len "=>") with 2 in *.
  all: destruct (_ && _ && _ && _) eqn:Hc1;
    [ rewrite !andb_true_iff in Hc1;
      rewrite Z.geb_le, !Z.gtb_lt, Z.ltb_lt in Hc1;
      destruct Hc1 as [[[H1 H2] H3] H4]; try lia | ].
  all: try (destruct (slice_is_Some line 0 (Index line "{")) as [pre ->]; [lia..|];
            destruct (slice_is_Some line (Index line "{" + 1) (Index line "}"))
              as [inside ->]; [lia..|];
            cbn [mbind option_bind];
            destruct (_ =? 2) eqn:Hn; [|eauto];
            apply Z.eqb_eq in Hn;
            destruct (Split inside "=>") as [|a [|b rest]];
              cbn [length] in Hn; try lia; cbn; eauto).
  all: destruct ((Index line "{" =? 0) && (Index line "=>" >? 0)) eqn:Hc2; [|eauto];
    rewrite andb_true_iff, Z.eqb_eq, Z.gtb_lt in Hc2; destruct Hc2 as [H5 H6];
    try lia.
  all: destruct (slice_is_Some line 1 (len line)) as [inside ->]; [lia..|];
    cbn [mbind option_bind];
    destruct (Index inside "=>" >? 0) eqn:Hc3; [|eauto];
    apply Z.gtb_lt in Hc3;
    destruct (Index_bounds inside "=>") as [Hi|[Hi1 Hi2]]; [lia|];
    change (len "=>") with 2 in *;
    destruct (slice_is_Some inside (Index inside "=>" + 2) (len inside))
      as [right ->]; [lia..|]; cbn; eauto.
Qed.

Lemma lookup_lt_is_Some' {A} (l : list A) (i : nat) :
  (i < length l)%nat → is_Some (l !! i).
Proof. apply lookup_lt_is_Some_2. Qed.

(** Every index expression of lines 168-218 is in range. *)
Lemma splitLine_total line : is_Some (splitLine line).
Proof.
  unfold splitLine.
  destruct (Z.of_nat (length (Fields line)) <? 3) eqn:H3.
  - destruct (Contains line "=>"); [|eauto].
    destruct (renamePath_total line) as [filePath ->]. cbn [mbind option_bind].
    destruct (String.eqb filePath ""); [eauto|].
    destruct (Z.of_nat (length (Fields line)) >=? 2) eqn:H2; [|eauto].
    rewrite Z.geb_le in H2.
    destruct (lookup_lt_is_Some' (Fields line) 0) as [a ->]; [lia|].
    destruct (lookup_lt_is_Some' (Fields line) 1) as [d ->]; [lia|].
    cbn. eauto.
  - apply Z.ltb_ge in H3.
    destruct (lookup_lt_is_Some' (Fields line) 0) as [a ->]; [lia|].
    destruct (lookup_lt_is_Some' (Fields line) 1) as [d ->]; [lia|].
    destruct (lookup_lt_is_Some' (Fields line) 2) as [p ->]; [lia|].
    cbn. eauto.
Qed.

Lemma changeAmount_one addedStr deletedStr : changeAmount addedStr deletedStr = 1.
Proof. unfold changeAmount. by destruct (_ || _). Qed.

(** An accepted line adds exactly 1 to the count of its key. *)
Lemma processLine_accepted os st line p :
  accepted os line = Some p →
  processLine os st line = Some (bump p 1 (countLine st)).
Proof.
  unfold accepted, processLine.
  destruct (String.eqb line ""); [discriminate|].
  destruct (splitLine line) as [[w|[[a d] f]]|]; try discriminate.
  cbn [mbind option_bind]. rewrite changeAmount_one.
  destruct (String.eqb (normalize os f) ""); [discriminate|].
  by intros [= <-].
Qed.

(** Any other line leaves [fileChangeCounts] as it is. *)
Lemma processLine_skipped os st line :
  accepted os line = None →
  ∃ st', processLine os st line = Some st' ∧
         fileChangeCounts st' = fileChangeCounts st.
Proof.
  unfold accepted, processLine.
  destruct (String.eqb line ""); [eauto|].
  destruct (splitLine_total line) as [[w|[[a d] f]] ->]; cbn [mbind option_bind].
  - eauto.
  - destruct (String.eqb (normalize os f) ""); [eauto|discriminate].
Qed.

(** The loop body never panics. *)
Lemma processLine_total os st line : is_Some (processLine os st line).
Proof.
  destruct (accepted os line) as [p|] eqn:Ha.
  - rewrite (processLine_accepted _ _ _ _ Ha). eauto.
  - destruct (processLine_skipped os st line Ha) as (st' & -> & _). eauto.
Qed.

Lemma processLines_total os lines : ∀ st, is_Some (processLines os st lines).
Proof.
  induction lines as [|line lines IH]; intros st; cbn [processLines]; [eauto|].
  destruct (processLine_total os st line) as [st' ->]. cbn. apply IH.
Qed.

Lemma processLines_app os l1 l2 st :
  processLines os st (l1 ++ l2) = st' ← processLines os st l1; processLines os st' l2.
Proof.
  revert st. induction l1 as [|line l1 IH]; intros st; cbn [processLines app]; [done|].
  destruct (processLine os st line) as [st'|]; cbn; [apply IH|done].
Qed.

End ParserFacts.

Module ParserClaims.
Import GoStrings GoFilepath GoScanner Parser ParserFacts Samples.

Lemma occurrences_snoc os p lines line :
  occurrences os p (lines ++ [line]) =
  (occurrences os p lines + (if bool_decide (accepted os line = Some p) then 1 else 0))%nat.
Proof.
  unfold occurrences. rewrite List.filter_app, List.length_app. cbn [List.filter].
  by destruct (bool_decide _).
Qed.

Lemma occurrences_le os p lines : (occurrences os p lines ≤ length lines)%nat.
Proof. unfold occurrences. apply List.filter_length_le. Qed.

(** The counts after the loop, in machine arithmetic: the key [p] is
    present exactly when some line was accepted for it, and then holds the
    wrapped number of such lines. *)
Lemma processLines_counts os lines :
  ∃ st, processLines os initial lines = Some st ∧
        ∀ p, fileChangeCounts st !! p =
             match occurrences os p lines with
             | O => None
             | S n => Some (GoInt.wrap (Z.of_nat (S n)))
             end.
Proof.
  induction lines as [|line lines IH] using rev_ind.
  - exists initial. split; [done|]. intros p. apply lookup_empty.
  - destruct IH as (st & Hst & Hm).
    rewrite processLines_app, Hst. cbn [mbind option_bind processLines].
    destruct (accepted os line) as [q|] eqn:Ha.
    + rewrite (processLine_accepted _ _ _ _ Ha). cbn [mbind option_bind].
      eexists; split; [done|]. intros p. rewrite occurrences_snoc.
      unfold bump, countLine. cbn [fileChangeCounts].
      destruct (decide (q = p)) as [->|Hne].
      * rewrite lookup_insert_eq, bool_decide_eq_true_2 by done.
        rewrite Hm. replace (occurrences os p lines + 1)%nat
          with (S (occurrences os p lines)) by lia.
        f_equal. destruct (occurrences os p lines) as [|n]; cbn [default].
        -- done.
        -- unfold GoInt.add, id. rewrite GoIntFacts.wrap_wrap_add. f_equal. lia.
      * rewrite lookup_insert_ne by done.
        rewrite bool_decide_eq_false_2 by congruence.
        rewrite Nat.add_0_r. apply Hm.
    + destruct (processLine_skipped os st line Ha) as (st' & -> & Heq).
      cbn [mbind option_bind]. eexists; split; [done|]. intros p.
      rewrite occurrences_snoc, bool_decide_eq_false_2 by congruence.
      rewrite Nat.add_0_r, Heq. apply Hm.
Qed.

(** C1. Every accepted numstat line adds exactly 1 to the weight of its
    normalized path, whatever its first two fields are; the line
    ["3\t1\tsrc/app.go"] alone yields the map [{"src/app.go": 1}]; and
    after any run of lines (no more than [max_int] of them, as in any Go
    string) each path holds the number of lines accepted for it. *)
Theorem weight_is_occurrence_count os :
  (∀ st line p, accepted os line = Some p →
     processLine os st line = Some (bump p 1 (countLine st)))
  ∧ (∀ addedStr deletedStr, changeAmount addedStr deletedStr = 1)
  ∧ fileChangeCounts <$> parse os normalLine = Some {[ "src/app.go" := 1 ]}
  ∧ (∀ lines, Z.of_nat (length lines) ≤ GoInt.max_int →
       ∃ st, processLines os initial lines = Some st ∧
             ∀ p, fileChangeCounts st !! p =
                  match occurrences os p lines with
                  | O => None
                  | S n => Some (Z.of_nat (S n))
                  end).
Proof.
  split; [apply processLine_accepted|].
  split; [apply changeAmount_one|].
  split; [by destruct os; vm_compute|].
  intros lines Hlen.
  destruct (processLines_counts os lines) as (st & Hst & Hm).
  exists st. split; [done|]. intros p. rewrite Hm.
  pose proof (occurrences_le os p lines) as Hle.
  destruct (occurrences os p lines) as [|n]; [done|].
  f_equal. apply GoIntFacts.wrap_in_range.
  unfold GoInt.in_range, GoInt.min_int, GoInt.max_int in *. lia.
Qed.

Lemma weight_is_occurrence_count_witness :
  accepted Unix "1 0 a/b.go" = Some "a/b.go" ∧
  Z.of_nat (length ["1 0 a/b.go"; "2 0 a/b.go"]) ≤ GoInt.max_int ∧
  processLine Unix initial "1 0 a/b.go" = Some (bump "a/b.go" 1 (countLine initial)) ∧
  ∃ st, processLines Unix initial ["1 0 a/b.go"; "2 0 a/b.go"] = Some st ∧
        ∀ p, fileChangeCounts st !! p =
             match occurrences Unix p ["1 0 a/b.go"; "2 0 a/b.go"] with
             | O => None
             | S n => Some (Z.of_nat (S n))
             end.
Proof.
  split; [reflexivity|]. split; [vm_compute; discriminate|].
  split.
  - apply (proj1 (weight_is_occurrence_count Unix)). reflexivity.
  - apply (proj2 (proj2 (proj2 (weight_is_occurrence_count Unix)))).
    vm_compute. discriminate.
Defined.

(** C2. On the line ["0\t0\tsrc/{old.go => new.go}"] the loop does not
    reach the rename branch: [strings.Fields] cuts the line at the blanks
    around the arrow, which gives five fields, so the line is read as a
    normal one and its third field, the source side, becomes the key.
    (The rename branch works on the whole line: had it been reached, the
    path would have kept the two counts and a blank.) *)
Theorem partial_rename_keeps_source_side os :
  Fields partialRename = ["0"; "0"; "src/{old.go"; "=>"; "new.go}"]
  ∧ splitLine partialRename = Some (inr ("0", "0", "src/{old.go"))
  ∧ renamePath partialRename = Some ("0" +:+ tab +:+ "0" +:+ tab +:+ "src/ new.go")
  ∧ accepted os partialRename = Some "src/{old.go"
  ∧ fileChangeCounts <$> parse os partialRename = Some {[ "src/{old.go" := 1 ]}
  ∧ fileChangeCounts <$> parse os partialRename ≠ Some {[ "src/new.go" := 1 ]}.
Proof.
  split; [by vm_compute|].
  split; [by vm_compute|].
  split; [by vm_compute|].
  split; [by destruct os; vm_compute|].
  assert (fileChangeCounts <$> parse os partialRename = Some {[ "src/{old.go" := 1 ]})
    as Heq by (by destruct os; vm_compute).
  split; [done|]. intros Hm. rewrite Heq in Hm. vm_compute in Hm. discriminate Hm.
Qed.

(** C3. On the line ["1\t0\t{old/path.go => new/path.go}"] the loop does
    not reach the rename branch either: the line has five fields, its
    third field ["{old/path.go"] is taken as the path, and stripping the
    leading brace leaves the source side as the key.  (Had the rename
    branch been reached, it would have taken the first notation, on the
    whole line, and kept the two counts in the path.) *)
Theorem whole_rename_keeps_source_side os :
  Fields wholeRename = ["1"; "0"; "{old/path.go"; "=>"; "new/path.go}"]
  ∧ splitLine wholeRename = Some (inr ("1", "0", "{old/path.go"))
  ∧ renamePath wholeRename = Some ("1" +:+ tab +:+ "0" +:+ tab +:+ " new/path.go")
  ∧ accepted os wholeRename = Some "old/path.go"
  ∧ fileChangeCounts <$> parse os wholeRename = Some {[ "old/path.go" := 1 ]}
  ∧ fileChangeCounts <$> parse os wholeRename ≠ Some {[ "new/path.go" := 1 ]}.
Proof.
  split; [by vm_compute|].
  split; [by vm_compute|].
  split; [by vm_compute|].
  split; [by destruct os; vm_compute|].
  assert (fileChangeCounts <$> parse os wholeRename = Some {[ "old/path.go" := 1 ]})
    as Heq by (by destruct os; vm_compute).
  split; [done|]. intros Hm. rewrite Heq in Hm. vm_compute in Hm. discriminate Hm.
Qed.

(** C4, as stated, fails: ["garbage text no tabs"] has four fields, so it
    is read as a normal line and counted for the path ["no"], without any
    warning. *)
Lemma garbage_line_is_counted :
  Fields garbage = ["garbage"; "text"; "no"; "tabs"]
  ∧ fileChangeCounts <$> parse Unix garbage = Some {[ "no" := 1 ]}
  ∧ warnings <$> parse Unix garbage = Some []
  ∧ fileChangeCounts <$> parse Unix garbage ≠ Some ∅.
Proof.
  split; [by vm_compute|].
  assert (fileChangeCounts <$> parse Unix garbage = Some {[ "no" := 1 ]})
    as Heq by (by vm_compute).
  split; [done|]. split; [by vm_compute|].
  intros Hm. rewrite Heq in Hm. vm_compute in Hm. discriminate Hm.
Qed.

(** [fileChangeCounts] after the loop depends on the starting state only
    through its [fileChangeCounts]. *)
Lemma processLine_counts_only os st1 st2 line :
  fileChangeCounts st1 = fileChangeCounts st2 →
  ∃ st1' st2', processLine os st1 line = Some st1' ∧
               processLine os st2 line = Some st2' ∧
               fileChangeCounts st1' = fileChangeCounts st2'.
Proof.
  intros Heq. destruct (accepted os line) as [p|] eqn:Ha.
  - rewrite !(processLine_accepted _ _ _ _ Ha).
    do 2 eexists; split; [done|split; [done|]].
    unfold bump, countLine. cbn [fileChangeCounts]. by rewrite Heq.
  - destruct (processLine_skipped os st1 line Ha) as (st1' & -> & H1).
    destruct (processLine_skipped os st2 line Ha) as (st2' & -> & H2).
    do 2 eexists; split; [done|split; [done|]]. congruence.
Qed.

Lemma processLines_counts_only os lines : ∀ st1 st2,
  fileChangeCounts st1 = fileChangeCounts st2 →
  ∃ st1' st2', processLines os st1 lines = Some st1' ∧
               processLines os st2 lines = Some st2' ∧
               fileChangeCounts st1' = fileChangeCounts st2'.
Proof.
  induction lines as [|line lines IH]; intros st1 st2 Heq; cbn [processLines].
  - eauto.
  - destruct (processLine_counts_only os st1 st2 line Heq) as (s1 & s2 & -> & -> & Heq').
    cbn [mbind option_bind]. by apply IH.
Qed.

(** One iteration on a token with fewer than three fields and no [=>]:
    the warning for malformed lines is logged and nothing else changes but
    the line counter; the loop goes on, and ends with the same
    [fileChangeCounts] as if the token had not been there. *)
Lemma malformed_token_is_skipped os line :
  line ≠ "" →
  (length (Fields line) < 3)%nat →
  Contains line "=>" = false →
  (∀ st, processLine os st line = Some (warn (WarnMalformed line) (countLine st)))
  ∧ accepted os line = None
  ∧ (∀ st before after,
       ∃ st1 st2,
         processLines os st (before ++ line :: after) = Some st1 ∧
         processLines os st (before ++ after) = Some st2 ∧
         fileChangeCounts st1 = fileChangeCounts st2).
Proof.
  intros Hne Hlen Harrow.
  assert (String.eqb line "" = false) as Hne' by (by apply String.eqb_neq).
  assert (splitLine line = Some (inl (WarnMalformed line))) as Hsplit.
  { unfold splitLine.
    assert ((Z.of_nat (length (Fields line)) <? 3) = true) as -> by (apply Z.ltb_lt; lia).
    by rewrite Harrow. }
  assert (∀ st, processLine os st line = Some (warn (WarnMalformed line) (countLine st)))
    as Hstep.
  { intros st. unfold processLine. by rewrite Hne', Hsplit. }
  split; [done|]. split.
  { unfold accepted. by rewrite Hne', Hsplit. }
  intros st before after. rewrite !processLines_app.
  destruct (processLines_total os before st) as [st' ->]. cbn [mbind option_bind processLines].
  rewrite Hstep. cbn [mbind option_bind].
  apply processLines_counts_only. done.
Qed.

End ParserClaims.

(** ** Trees *)

Module TreeFacts.
Import GoStrings Tree TreeSpec.

(** Induction on a node with the property available for every child. *)
Lemma Node_induction (P : Node → Prop) :
  (∀ name path value isFile children,
     Forall (λ kc, P (snd kc)) children →
     P (mkNode name path value isFile children)) →
  ∀ n, P n.
Proof.
  intros Hstep.
  fix IH 1. intros [name path value isFile children].
  apply Hstep.
  induction children as [|[k c] rest IHrest]; constructor; [apply IH|apply IHrest].
Qed.

Lemma nodes_unfold n :
  nodes n = n :: flat_map (λ kc : string * Node, nodes (snd kc)) (Children n).
Proof.
  destruct n as [name path value isFile children]. cbn [nodes Children].
  f_equal. induction children as [|[k c] rest IH]; [done|].
  cbn [flat_map snd]. by rewrite <- IH.
Qed.

Lemma Forall_nodes (P : Node → Prop) n :
  Forall P (nodes n) ↔
  P n ∧ Forall (λ kc : string * Node, Forall P (nodes (snd kc))) (Children n).
Proof.
  rewrite nodes_unfold, Forall_cons.
  assert (∀ cs : list (string * Node),
            Forall P (flat_map (λ kc, nodes (snd kc)) cs) ↔
            Forall (λ kc, Forall P (nodes (snd kc))) cs) as Hflat.
  { induction cs as [|kc cs IH]; cbn [flat_map].
    - split; constructor.
    - rewrite Forall_app, Forall_cons, IH. done. }
  by rewrite Hflat.
Qed.

Lemma sumZ_app l1 l2 : sumZ (l1 ++ l2) = sumZ l1 + sumZ l2.
Proof. unfold sumZ. induction l1 as [|x l1 IH]; cbn [app fold_right]; lia. Qed.

Lemma sumZ_perm l1 l2 : Permutation l1 l2 → sumZ l1 = sumZ l2.
Proof. unfold sumZ. induction 1; cbn [fold_right]; lia. Qed.

Lemma sumZ_nonneg l : Forall (λ x, 0 ≤ x) l → 0 ≤ sumZ l.
Proof. unfold sumZ. induction 1; cbn [fold_right]; lia. Qed.

Lemma lookupChild_elem k cs c : lookupChild k cs = Some c → (k, c) ∈ cs.
Proof.
  induction cs as [|[k' c'] rest IH]; cbn [lookupChild]; [discriminate|].
  destruct (String.eqb k' k) eqn:Hk.
  - apply String.eqb_eq in Hk. intros [= ->]. subst. left.
  - intros Hl. right. by apply IH.
Qed.

Lemma lookupChild_nonempty k cs c : lookupChild k cs = Some c → cs ≠ [].
Proof. by destruct cs. Qed.

Lemma updateChild_nonempty k c cs : cs ≠ [] → updateChild k c cs ≠ [].
Proof.
  destruct cs as [|[k' c'] rest]; [done|]. intros _. cbn [updateChild].
  by destruct (String.eqb k' k).
Qed.

Lemma Forall_updateChild (Q : string * Node → Prop) k c cs :
  Forall Q cs → (∀ c0, lookupChild k cs = Some c0 → Q (k, c)) →
  Forall Q (updateChild k c cs).
Proof.
  induction 1 as [|[k' c'] rest Hq Hrest IH]; cbn [updateChild lookupChild]; intros Hc.
  - constructor.
  - destruct (String.eqb k' k) eqn:Hk.
    + apply String.eqb_eq in Hk. subst. constructor; [by eapply Hc|done].
    + constructor; [done|]. apply IH. done.
Qed.

Lemma lookupChild_updateChild k c cs k' :
  lookupChild k' (updateChild k c cs) =
  if String.eqb k k' then (match lookupChild k cs with Some _ => Some c | None => None end)
  else lookupChild k' cs.
Proof.
  induction cs as [|[k0 c0] rest IH]; cbn [updateChild lookupChild].
  - by destruct (String.eqb k k').
  - destruct (String.eqb k0 k) eqn:Hk0; cbn [lookupChild].
    + apply String.eqb_eq in Hk0. subst k0.
      by destruct (String.eqb k k').
    + destruct (String.eqb k0 k') eqn:Hk0'.
      * apply String.eqb_eq in Hk0'. subst k0.
        rewrite String.eqb_sym in Hk0. by rewrite Hk0.
      * apply IH.
Qed.

Lemma lookupChild_snoc k cs k0 c0 :
  lookupChild k (cs ++ [(k0, c0)]) =
  match lookupChild k cs with
  | Some c => Some c
  | None => if String.eqb k0 k then Some c0 else None
  end.
Proof.
  induction cs as [|[k1 c1] rest IH]; cbn [app lookupChild]; [done|].
  by destruct (String.eqb k1 k).
Qed.

(** *** Files have no children *)

Lemma wellFormed_unfold n :
  wellFormed n ↔
  (IsFile n = true → Children n = []) ∧
  Forall (λ kc : string * Node, wellFormed (snd kc)) (Children n).
Proof. unfold wellFormed. apply Forall_nodes. Qed.

Lemma wellFormed_NewNode name path isFile : wellFormed (NewNode name path isFile).
Proof. apply wellFormed_unfold. split; [done|constructor]. Qed.

Lemma wellFormed_child n k c :
  wellFormed n → lookupChild k (Children n) = Some c → wellFormed c.
Proof.
  intros [_ Hcs]%wellFormed_unfold Hl%lookupChild_elem.
  rewrite Forall_forall in Hcs. apply (Hcs (k, c)). done.
Qed.

Lemma wellFormed_parent n k c : 
  wellFormed n → lookupChild k (Children n) = Some c → IsFile n = false.
Proof.
  intros [Hn _]%wellFormed_unfold Hl%lookupChild_nonempty.
  destruct (IsFile n); [|done]. by destruct Hl; apply Hn.
Qed.

Section EnsurePathFacts.
Variable Join : string → string → string.

(** [ensurePath] keeps files childless: a node that receives its first
    child is turned into a directory on the spot. *)
Lemma ensurePathFrom_wellFormed pathParts : ∀ i n currentPath current,
  wellFormed current →
  wellFormed (fst (ensurePathFrom Join i n currentPath current pathParts)).
Proof.
  induction pathParts as [|part rest IH]; intros i n currentPath current Hwf;
    cbn [ensurePathFrom]; [done|].
  destruct (String.eqb part ""); [by apply IH|].
  destruct (lookupChild part (Children current)) as [child|] eqn:Hl.
  - pose proof (IH (i + 1) n (Join currentPath part) child
                   (wellFormed_child _ _ _ Hwf Hl)) as Hchild.
    destruct (ensurePathFrom Join (i + 1) n (Join currentPath part) child rest)
      as [child' addr]. cbn [fst] in *.
    apply wellFormed_unfold. cbn [IsFile Children]. split.
    + rewrite (wellFormed_parent _ _ _ Hwf Hl). done.
    + apply Forall_updateChild; [by apply wellFormed_unfold in Hwf as [_ ?]|done].
  - pose proof (IH (i + 1) n (Join currentPath part)
                   (NewNode part (Join currentPath part) (i =? n - 1))
                   (wellFormed_NewNode _ _ _)) as Hchild.
    destruct (ensurePathFrom Join (i + 1) n (Join currentPath part) _ rest)
      as [child' addr]. cbn [fst] in *.
    apply wellFormed_unfold. cbn [IsFile Children]. split; [done|].
    apply Forall_app. split; [by apply wellFormed_unfold in Hwf as [_ ?]|].
    by constructor.
Qed.

(** The node that receives a new child is a directory afterwards. *)
Lemma ensurePathFrom_reclassifies i n currentPath current part rest :
  part ≠ "" →
  lookupChild part (Children current) = None →
  IsFile (fst (ensurePathFrom Join i n currentPath current (part :: rest))) = false.
Proof.
  intros Hne%String.eqb_neq Hl. cbn [ensurePathFrom]. rewrite Hne, Hl.
  by destruct (ensurePathFrom Join (i + 1) n _ _ rest).
Qed.

Lemma setValue_wellFormed addr v : ∀ n, wellFormed n → wellFormed (setValue addr v n).
Proof.
  induction addr as [|k rest IH]; intros n Hwf; cbn [setValue].
  - apply wellFormed_unfold in Hwf as [H1 H2]. by apply wellFormed_unfold.
  - destruct (lookupChild k (Children n)) as [c|] eqn:Hl; [|done].
    apply wellFormed_unfold. cbn [IsFile Children]. split.
    + rewrite (wellFormed_parent _ _ _ Hwf Hl). done.
    + apply Forall_updateChild; [by apply wellFormed_unfold in Hwf as [_ ?]|].
      intros _ _. cbn [snd]. apply IH. by eapply wellFormed_child.
Qed.

Lemma insertEntry_wellFormed rootDir entry :
  wellFormed rootDir → wellFormed (insertEntry Join rootDir entry).
Proof.
  intros Hwf. destruct entry as [filePath count]. unfold insertEntry.
  destruct (count =? 0); [done|].
  unfold ensurePath.
  pose proof (ensurePathFrom_wellFormed (pathPartsOf filePath) 0
                (Z.of_nat (length (pathPartsOf filePath))) "/" rootDir Hwf) as H.
  destruct (ensurePathFrom Join 0 _ "/" rootDir (pathPartsOf filePath)) as [r addr].
  by apply setValue_wellFormed.
Qed.

Lemma fold_insertEntry_wellFormed entries : ∀ rootDir,
  wellFormed rootDir → wellFormed (fold_left (insertEntry Join) entries rootDir).
Proof.
  induction entries as [|e entries IH]; intros rootDir Hwf; cbn [fold_left]; [done|].
  apply IH. by apply insertEntry_wellFormed.
Qed.

Lemma buildTree_wellFormed name entries : wellFormed (buildTree Join name entries).
Proof. apply fold_insertEntry_wellFormed, wellFormed_NewNode. Qed.

End EnsurePathFacts.

(** *** Sums over a tree *)

Lemma sumZ_cons x l : sumZ (x :: l) = x + sumZ l.
Proof. done. Qed.

Lemma sumZ_map_flat_map {A B} (v : B → Z) (g : A → list B) (l : list A) :
  sumZ (List.map v (flat_map g l)) = sumZ (List.map (λ x, sumZ (List.map v (g x))) l).
Proof.
  induction l as [|x l IH]; [done|].
  cbn [flat_map List.map]. rewrite List.map_app, sumZ_app, sumZ_cons, IH. done.
Qed.

Lemma totalValue_unfold n :
  totalValue n =
  Value n + sumZ (List.map (λ kc : string * Node, totalValue (snd kc)) (Children n)).
Proof.
  unfold totalValue at 1. rewrite nodes_unfold. cbn [List.map].
  by rewrite sumZ_cons, sumZ_map_flat_map.
Qed.

Lemma files_unfold n :
  files n = (if IsFile n then [n] else []) ++
            flat_map (λ kc : string * Node, files (snd kc)) (Children n).
Proof.
  unfold files at 1. rewrite nodes_unfold. cbn [List.filter].
  assert (List.filter IsFile (flat_map (λ kc : string * Node, nodes (snd kc)) (Children n))
          = flat_map (λ kc : string * Node, files (snd kc)) (Children n)) as ->.
  { induction (Children n) as [|kc cs IH]; [done|].
    cbn [flat_map]. by rewrite List.filter_app, IH. }
  by destruct (IsFile n).
Qed.

Lemma leafSum_unfold n :
  leafSum n =
  (if IsFile n then Value n else 0) +
  sumZ (List.map (λ kc : string * Node, leafSum (snd kc)) (Children n)).
Proof.
  unfold leafSum. rewrite files_unfold, List.map_app, sumZ_app, sumZ_map_flat_map.
  destruct (IsFile n); cbn [List.map]; rewrite ?sumZ_cons; cbn [sumZ fold_right]; lia.
Qed.

Lemma sumZ_map_updateChild (f : string * Node → Z) k c c' cs :
  lookupChild k cs = Some c →
  sumZ (List.map f (updateChild k c' cs)) = sumZ (List.map f cs) - f (k, c) + f (k, c').
Proof.
  induction cs as [|[k0 c0] rest IH]; cbn [lookupChild updateChild]; [discriminate|].
  destruct (String.eqb k0 k) eqn:Hk.
  - apply String.eqb_eq in Hk. subst. intros [= ->]. cbn [List.map]. rewrite !sumZ_cons. lia.
  - intros Hl. cbn [List.map]. rewrite !sumZ_cons, IH by done. lia.
Qed.

Lemma nonNegative_unfold n :
  nonNegative n ↔
  0 ≤ Value n ∧ Forall (λ kc : string * Node, nonNegative (snd kc)) (Children n).
Proof. unfold nonNegative. apply Forall_nodes. Qed.

Lemma nonNegative_child n k c :
  nonNegative n → lookupChild k (Children n) = Some c → nonNegative c.
Proof.
  intros [_ Hcs]%nonNegative_unfold Hl%lookupChild_elem.
  rewrite Forall_forall in Hcs. apply (Hcs (k, c)). done.
Qed.

Lemma leafSum_le_totalValue : ∀ n, nonNegative n → 0 ≤ leafSum n ≤ totalValue n.
Proof.
  induction n as [name path value isFile children IH] using Node_induction.
  intros [Hv Hcs]%nonNegative_unfold. cbn [Value Children] in *.
  rewrite leafSum_unfold, totalValue_unfold. cbn [Value Children IsFile].
  assert (0 ≤ sumZ (List.map (λ kc : string * Node, leafSum (snd kc)) children)
          ≤ sumZ (List.map (λ kc : string * Node, totalValue (snd kc)) children)) as Hsum.
  { clear Hv. induction children as [|kc cs IHcs]; [done|].
    inversion IH as [|? ? Hkc Hrest]; subst. inversion Hcs as [|? ? Hn Hns]; subst.
    cbn [List.map]. rewrite !sumZ_cons. specialize (Hkc Hn). specialize (IHcs Hrest Hns). lia. }
  destruct isFile; lia.
Qed.

Section BuildFacts.
Variable Join : string → string → string.

(** [ensurePath] creates nodes with value 0 and changes no value. *)
Lemma ensurePathFrom_totalValue pathParts : ∀ i n currentPath current,
  totalValue (fst (ensurePathFrom Join i n currentPath current pathParts))
  = totalValue current.
Proof.
  induction pathParts as [|part rest IH]; intros i n currentPath current;
    cbn [ensurePathFrom]; [done|].
  destruct (String.eqb part ""); [by apply IH|].
  destruct (lookupChild part (Children current)) as [child|] eqn:Hl.
  - pose proof (IH (i + 1) n (Join currentPath part) child) as Hchild.
    destruct (ensurePathFrom Join (i + 1) n (Join currentPath part) child rest)
      as [child' addr]. cbn [fst] in *.
    rewrite (totalValue_unfold current), totalValue_unfold. cbn [Value Children].
    rewrite (sumZ_map_updateChild _ _ _ _ _ Hl). cbn [snd]. lia.
  - pose proof (IH (i + 1) n (Join currentPath part)
                   (NewNode part (Join currentPath part) (i =? n - 1))) as Hchild.
    destruct (ensurePathFrom Join (i + 1) n (Join currentPath part) _ rest)
      as [child' addr]. cbn [fst] in *.
    rewrite (totalValue_unfold current), totalValue_unfold. cbn [Value Children].
    rewrite List.map_app, sumZ_app. cbn [List.map snd]. rewrite sumZ_cons, Hchild.
    rewrite (totalValue_unfold (NewNode part (Join currentPath part) (i =? n - 1))).
    cbn [NewNode Value Children List.map sumZ fold_right]. lia.
Qed.

Lemma ensurePathFrom_nonNegative pathParts : ∀ i n currentPath current,
  nonNegative current →
  nonNegative (fst (ensurePathFrom Join i n currentPath current pathParts)).
Proof.
  induction pathParts as [|part rest IH]; intros i n currentPath current Hnn;
    cbn [ensurePathFrom]; [done|].
  destruct (String.eqb part ""); [by apply IH|].
  destruct (lookupChild part (Children current)) as [child|] eqn:Hl.
  - pose proof (IH (i + 1) n (Join currentPath part) child
                   (nonNegative_child _ _ _ Hnn Hl)) as Hchild.
    destruct (ensurePathFrom Join (i + 1) n (Join currentPath part) child rest)
      as [child' addr]. cbn [fst] in *.
    apply nonNegative_unfold in Hnn as [Hv Hcs].
    apply nonNegative_unfold. cbn [Value Children]. split; [done|].
    by apply Forall_updateChild.
  - assert (nonNegative (NewNode part (Join currentPath part) (i =? n - 1))) as Hnew.
    { apply nonNegative_unfold. cbn. split; [lia|constructor]. }
    pose proof (IH (i + 1) n (Join currentPath part) _ Hnew) as Hchild.
    destruct (ensurePathFrom Join (i + 1) n (Join currentPath part) _ rest)
      as [child' addr]. cbn [fst] in *.
    apply nonNegative_unfold in Hnn as [Hv Hcs].
    apply nonNegative_unfold. cbn [Value Children]. split; [done|].
    apply Forall_app. split; [done|]. by constructor.
Qed.

(** The keys that [ensurePath] follows. *)
Lemma ensurePathFrom_address pathParts : ∀ i n currentPath current,
  snd (ensurePathFrom Join i n currentPath current pathParts)
  = List.filter (λ part, negb (String.eqb part "")) pathParts.
Proof.
  induction pathParts as [|part rest IH]; intros i n currentPath current;
    cbn [ensurePathFrom List.filter]; [done|].
  destruct (String.eqb part ""); cbn [negb]; [by apply IH|].
  destruct (lookupChild part (Children current)) as [child|] eqn:Hl.
  - pose proof (IH (i + 1) n (Join currentPath part) child) as Hchild.
    destruct (ensurePathFrom Join (i + 1) n (Join currentPath part) child rest)
      as [child' addr]. cbn [snd] in *. by f_equal.
  - pose proof (IH (i + 1) n (Join currentPath part)
                   (NewNode part (Join currentPath part) (i =? n - 1))) as Hchild.
    destruct (ensurePathFrom Join (i + 1) n (Join currentPath part) _ rest)
      as [child' addr]. cbn [snd] in *. by f_equal.
Qed.

End BuildFacts.

(** *** Addresses *)


Lemma nodeAt_elem D : ∀ n d, nodeAt D n = Some d → d ∈ nodes n.
Proof.
  induction D as [|k D IH]; intros n d; cbn [nodeAt].
  - intros [= ->]. rewrite nodes_unfold. left.
  - destruct (lookupChild k (Children n)) as [c|] eqn:Hl; [|discriminate].
    cbn [mbind option_bind]. intros Hd%IH.
    rewrite nodes_unfold. right. apply list_elem_of_In, in_flat_map.
    exists (k, c). split; [by apply list_elem_of_In, lookupChild_elem|].
    by apply list_elem_of_In.
Qed.

Section AddressFacts.
Variable Join : string → string → string.

(** The node that [ensurePath] returns is in the tree, at the address
    returned with it. *)
Lemma ensurePathFrom_nodeAt pathParts : ∀ i n currentPath current,
  is_Some (nodeAt (snd (ensurePathFrom Join i n currentPath current pathParts))
                  (fst (ensurePathFrom Join i n currentPath current pathParts))).
Proof.
  induction pathParts as [|part rest IH]; intros i n currentPath current;
    cbn [ensurePathFrom]; [by eexists|].
  destruct (String.eqb part "") eqn:Hpart; [by apply IH|].
  destruct (lookupChild part (Children current)) as [child|] eqn:Hl.
  - pose proof (IH (i + 1) n (Join currentPath part) child) as Hchild.
    destruct (ensurePathFrom Join (i + 1) n (Join currentPath part) child rest)
      as [child' addr]. cbn [fst snd nodeAt Children] in *.
    rewrite lookupChild_updateChild, String.eqb_refl, Hl. done.
  - pose proof (IH (i + 1) n (Join currentPath part)
                   (NewNode part (Join currentPath part) (i =? n - 1))) as Hchild.
    destruct (ensurePathFrom Join (i + 1) n (Join currentPath part) _ rest)
      as [child' addr]. cbn [fst snd nodeAt Children] in *.
    rewrite lookupChild_snoc, Hl, String.eqb_refl. done.
Qed.

(** [ensurePath] keeps every node where it is, with its value; a node with
    children keeps having children. *)
Lemma ensurePathFrom_keeps pathParts : ∀ i n currentPath current D d,
  nodeAt D current = Some d →
  ∃ d', nodeAt D (fst (ensurePathFrom Join i n currentPath current pathParts)) = Some d'
        ∧ Value d' = Value d
        ∧ (Children d ≠ [] → Children d' ≠ []).
Proof.
  induction pathParts as [|part rest IH]; intros i n currentPath current D d Hd;
    cbn [ensurePathFrom]; [by eauto|].
  destruct (String.eqb part "") eqn:Hpart; [by apply IH|].
  destruct (lookupChild part (Children current)) as [child|] eqn:Hl.
  - pose proof (IH (i + 1) n (Join currentPath part) child) as Hchild.
    destruct (ensurePathFrom Join (i + 1) n (Join currentPath part) child rest)
      as [child' addr]. cbn [fst] in *.
    destruct D as [|k D]; cbn [nodeAt Children] in *.
    + injection Hd as <-. eexists. split; [done|]. cbn [Value Children].
      split; [done|]. apply updateChild_nonempty.
    + rewrite lookupChild_updateChild, Hl.
      destruct (String.eqb part k) eqn:Hk.
      * apply String.eqb_eq in Hk. subst k. rewrite Hl in Hd.
        cbn [mbind option_bind] in *. by apply Hchild.
      * by eauto.
  - destruct (ensurePathFrom Join (i + 1) n (Join currentPath part) _ rest)
      as [child' addr]. cbn [fst] in *.
    destruct D as [|k D]; cbn [nodeAt Children] in *.
    + injection Hd as <-. eexists. split; [done|]. cbn [Value Children].
      split; [done|]. intros _. by destruct (Children current).
    + rewrite lookupChild_snoc.
      destruct (lookupChild k (Children current)) as [c|]; [|discriminate].
      by eauto.
Qed.

End AddressFacts.

(** [setValue] at the address of a node changes the value of that node,
    and nothing else about it. *)
Lemma setValue_at addr v : ∀ n d,
  nodeAt addr n = Some d →
  ∃ d', nodeAt addr (setValue addr v n) = Some d' ∧ Value d' = v
        ∧ Children d' = Children d ∧ IsFile d' = IsFile d.
Proof.
  induction addr as [|k addr IH]; intros n d; cbn [nodeAt setValue].
  - intros [= <-]. by eexists.
  - destruct (lookupChild k (Children n)) as [c|] eqn:Hl; [|discriminate].
    cbn [mbind option_bind Children]. intros Hd.
    rewrite lookupChild_updateChild, String.eqb_refl, Hl. cbn [mbind option_bind].
    by apply IH.
Qed.

(** Seen from any address, [setValue] keeps the node there; its value is
    the old one or the new one, and it keeps having children if it had. *)
Lemma setValue_keeps addr v : ∀ n D d,
  nodeAt D n = Some d →
  ∃ d', nodeAt D (setValue addr v n) = Some d'
        ∧ (Value d' = Value d ∨ Value d' = v)
        ∧ (Children d ≠ [] → Children d' ≠ []).
Proof.
  induction addr as [|k addr IH]; intros n D d Hd; cbn [setValue].
  - destruct D as [|k0 D]; cbn [nodeAt Children] in *.
    + injection Hd as <-. eexists. split; [done|]. cbn [Value Children]. by eauto.
    + by eauto.
  - destruct (lookupChild k (Children n)) as [c|] eqn:Hl; [|by eauto].
    destruct D as [|k0 D]; cbn [nodeAt Children] in *.
    + injection Hd as <-. eexists. split; [done|]. cbn [Value Children].
      split; [by left|]. apply updateChild_nonempty.
    + rewrite lookupChild_updateChild, Hl.
      destruct (String.eqb k k0) eqn:Hk.
      * apply String.eqb_eq in Hk. subst k0. rewrite Hl in Hd.
        cbn [mbind option_bind] in *. by apply IH.
      * by eauto.
Qed.

Lemma setValue_totalValue addr v : ∀ n d,
  nodeAt addr n = Some d →
  totalValue (setValue addr v n) = totalValue n - Value d + v.
Proof.
  induction addr as [|k addr IH]; intros n d; cbn [nodeAt setValue].
  - intros [= <-]. rewrite (totalValue_unfold n), totalValue_unfold.
    cbn [Value Children]. lia.
  - destruct (lookupChild k (Children n)) as [c|] eqn:Hl; [|discriminate].
    cbn [mbind option_bind]. intros Hd.
    rewrite (totalValue_unfold n), totalValue_unfold. cbn [Value Children].
    rewrite (sumZ_map_updateChild _ _ _ _ _ Hl). cbn [snd].
    rewrite (IH _ _ Hd). lia.
Qed.

Lemma setValue_nonNegative addr v : ∀ n,
  0 ≤ v → nonNegative n → nonNegative (setValue addr v n).
Proof.
  induction addr as [|k addr IH]; intros n Hv Hnn; cbn [setValue].
  - apply nonNegative_unfold in Hnn as [H1 H2]. by apply nonNegative_unfold.
  - destruct (lookupChild k (Children n)) as [c|] eqn:Hl; [|done].
    pose proof (nonNegative_child _ _ _ Hnn Hl) as Hc.
    apply nonNegative_unfold in Hnn as [H1 H2].
    apply nonNegative_unfold. cbn [Value Children]. split; [done|].
    apply Forall_updateChild; [done|]. intros _ _. cbn [snd]. by apply IH.
Qed.

(** *** The build loop *)

Section BuildLoopFacts.
Variable Join : string → string → string.

(** What one iteration does, once [ensurePath] is named. *)
Lemma insertEntry_unfold rootDir filePath count :
  count ≠ 0 →
  insertEntry Join rootDir (filePath, count) =
  setValue (address filePath) count
           (fst (ensurePath Join rootDir (pathPartsOf filePath))).
Proof.
  intros Hc%Z.eqb_neq. unfold insertEntry. rewrite Hc.
  pose proof (ensurePathFrom_address Join (pathPartsOf filePath) 0
                (Z.of_nat (length (pathPartsOf filePath))) "/" rootDir) as Ha.
  unfold ensurePath. 
  destruct (ensurePathFrom Join 0 _ "/" rootDir (pathPartsOf filePath)) as [r addr].
  cbn [fst snd] in *. by subst addr.
Qed.

Lemma ensurePath_nodeAt rootDir filePath :
  is_Some (nodeAt (address filePath)
                  (fst (ensurePath Join rootDir (pathPartsOf filePath)))).
Proof.
  pose proof (ensurePathFrom_nodeAt Join (pathPartsOf filePath) 0
                (Z.of_nat (length (pathPartsOf filePath))) "/" rootDir) as H.
  by rewrite ensurePathFrom_address in H.
Qed.

Lemma insertEntry_nonNegative rootDir entry :
  0 ≤ snd entry → nonNegative rootDir → nonNegative (insertEntry Join rootDir entry).
Proof.
  destruct entry as [filePath count]. cbn [snd]. intros Hc Hnn.
  destruct (decide (count = 0)) as [->|Hne]; [done|].
  rewrite insertEntry_unfold by done.
  apply setValue_nonNegative; [done|]. by apply ensurePathFrom_nonNegative.
Qed.

Lemma insertEntry_totalValue rootDir entry :
  0 ≤ snd entry → nonNegative rootDir →
  totalValue (insertEntry Join rootDir entry) ≤ totalValue rootDir + snd entry.
Proof.
  destruct entry as [filePath count]. cbn [snd]. intros Hc Hnn.
  destruct (decide (count = 0)) as [->|Hne];
    [change (insertEntry Join rootDir (filePath, 0)) with rootDir; lia|].
  rewrite insertEntry_unfold by done.
  destruct (ensurePath_nodeAt rootDir filePath) as [d Hd].
  rewrite (setValue_totalValue _ _ _ _ Hd).
  unfold ensurePath. rewrite ensurePathFrom_totalValue.
  assert (0 ≤ Value d); [|lia].
  apply nodeAt_elem in Hd.
  pose proof (ensurePathFrom_nonNegative Join (pathPartsOf filePath) 0
                (Z.of_nat (length (pathPartsOf filePath))) "/" rootDir Hnn) as Hnn'.
  unfold nonNegative in Hnn'. rewrite Forall_forall in Hnn'. by apply Hnn'.
Qed.

Lemma fold_insertEntry_bounds entries : ∀ rootDir,
  Forall (λ e : string * Z, 0 ≤ snd e) entries →
  nonNegative rootDir →
  nonNegative (fold_left (insertEntry Join) entries rootDir) ∧
  totalValue (fold_left (insertEntry Join) entries rootDir)
  ≤ totalValue rootDir + weightSum entries.
Proof.
  induction entries as [|e entries IH]; intros rootDir Hw Hnn; cbn [fold_left].
  - split; [done|]. unfold weightSum. cbn. lia.
  - inversion Hw as [|? ? He Hes]; subst.
    destruct (IH (insertEntry Join rootDir e) Hes (insertEntry_nonNegative _ _ He Hnn))
      as [H1 H2].
    split; [done|].
    pose proof (insertEntry_totalValue rootDir e He Hnn).
    unfold weightSum in *. cbn [List.map]. rewrite sumZ_cons. lia.
Qed.

(** The values stored by the builder are non-negative and add up to at
    most the sum of the weights. *)
Lemma buildTree_bounds name entries :
  Forall (λ e : string * Z, 0 ≤ snd e) entries →
  nonNegative (buildTree Join name entries) ∧
  totalValue (buildTree Join name entries) ≤ weightSum entries.
Proof.
  intros Hw. unfold buildTree.
  assert (nonNegative (NewNode name "/" false)) as Hnn.
  { apply nonNegative_unfold. cbn. split; [lia|constructor]. }
  destruct (fold_insertEntry_bounds entries _ Hw Hnn) as [H1 H2].
  split; [done|].
  rewrite (totalValue_unfold (NewNode name "/" false)) in H2. cbn in H2. lia.
Qed.









End BuildLoopFacts.

(** *** Aggregation *)

Lemma sumZ_elem_le l x : Forall (λ y, 0 ≤ y) l → x ∈ l → x ≤ sumZ l.
Proof.
  induction 1 as [|y l Hy Hl IH]; intros Hin; [by apply elem_of_nil in Hin|].
  rewrite sumZ_cons. pose proof (sumZ_nonneg l Hl).
  apply elem_of_cons in Hin as [->|Hin]; [lia|]. specialize (IH Hin). lia.
Qed.

(** Summing with [int] addition from a value in range gives the wrapped
    mathematical sum. *)
Lemma fold_add_wrap {A} (f : A → Z) (l : list A) : ∀ a,
  GoInt.in_range a →
  fold_left (λ sum r, GoInt.add sum (f r)) l a = GoInt.wrap (a + sumZ (List.map f l)).
Proof.
  induction l as [|x l IH]; intros a Ha; cbn [fold_left List.map].
  - cbn [sumZ fold_right]. rewrite Z.add_0_r. symmetry. by apply GoIntFacts.wrap_in_range.
  - rewrite IH by apply GoIntFacts.wrap_range.
    unfold GoInt.add. rewrite GoIntFacts.wrap_wrap_add, sumZ_cons. f_equal. lia.
Qed.

Section AggregateFacts.
Context `{Runtime}.

Lemma aggregateCounts_unfold n :
  aggregateCounts n =
  if IsFile n then (n, Value n)
  else
    let results :=
      List.map (λ kc : string * Node, let (k, c) := kc in (k, aggregateCounts c))
               (Children n) in
    let sum :=
      fold_left (λ sum (r : string * (Node * Z)), GoInt.add sum (snd (snd r)))
                (rangeOrder results) 0 in
    (mkNode (Name n) (Path n) sum (IsFile n)
            (List.map (λ r : string * (Node * Z), (fst r, fst (snd r))) results),
     sum).
Proof. by destruct n. Qed.

(** The value returned for a directory is the wrapped sum of the values
    returned for its children, in whatever order [range] visits them. *)
Lemma aggregateCounts_sum n :
  IsFile n = false →
  snd (aggregateCounts n) =
  GoInt.wrap (sumZ (List.map (λ kc : string * Node, snd (aggregateCounts (snd kc)))
                             (Children n))).
Proof.
  intros Hf. rewrite aggregateCounts_unfold, Hf. cbn [snd].
  rewrite fold_add_wrap by (unfold GoInt.in_range, GoInt.min_int, GoInt.max_int; lia).
  rewrite Z.add_0_l. f_equal.
  rewrite (sumZ_perm _ _ (Permutation_map _ (rangeOrder_perm _ _))).
  rewrite List.map_map. f_equal. apply List.map_ext. by intros [k c].
Qed.

Lemma aggregateCounts_Value n :
  Value (fst (aggregateCounts n)) = snd (aggregateCounts n).
Proof. rewrite aggregateCounts_unfold. by destruct (IsFile n). Qed.

Lemma aggregateCounts_IsFile n :
  IsFile (fst (aggregateCounts n)) = IsFile n.
Proof. rewrite aggregateCounts_unfold. by destruct (IsFile n) eqn:Hf. Qed.

Lemma aggregateCounts_Children n :
  IsFile n = false →
  Children (fst (aggregateCounts n)) =
  List.map (λ kc : string * Node, (fst kc, fst (aggregateCounts (snd kc)))) (Children n).
Proof.
  intros Hf. rewrite aggregateCounts_unfold, Hf. cbn [fst Children].
  rewrite List.map_map. apply List.map_ext. by intros [k c].
Qed.

(** Without overflow, aggregation returns the sum of the file values,
    leaves the files as they are, and makes every directory hold the sum of
    its children. *)
Lemma aggregateCounts_exact : ∀ n,
  wellFormed n →
  Forall (λ f, 0 ≤ Value f) (files n) →
  leafSum n ≤ GoInt.max_int →
  snd (aggregateCounts n) = leafSum n
  ∧ conserved (fst (aggregateCounts n))
  ∧ files (fst (aggregateCounts n)) = files n
  ∧ wellFormed (fst (aggregateCounts n)).
Proof.
  induction n as [name path value isFile children IH] using Node_induction.
  intros Hwf Hnn Hmax.
  set (n := mkNode name path value isFile children) in *.
  destruct isFile eqn:Hfile.
  - (* a file: returned as it is *)
    apply wellFormed_unfold in Hwf as Hwf'. destruct Hwf' as [Hnil _].
    specialize (Hnil eq_refl). cbn [Children n] in Hnil. subst children.
    rewrite aggregateCounts_unfold. cbn [IsFile n fst snd].
    split; [by rewrite leafSum_unfold; cbn; lia|].
    split; [|done].
    unfold conserved. rewrite nodes_unfold. cbn [Children flat_map].
    by constructor.
  - (* a directory *)
    apply wellFormed_unfold in Hwf as Hwf'. destruct Hwf' as [_ Hwfs].
    cbn [Children n] in Hwfs.
    rewrite files_unfold in Hnn. cbn [IsFile Children n app] in Hnn.
    rewrite leafSum_unfold in Hmax. cbn [IsFile Children n] in Hmax.
    assert (Forall (λ kc : string * Node, Forall (λ f, 0 ≤ Value f) (files (snd kc)))
                   children) as Hnns.
    { clear -Hnn. induction children as [|kc cs IHcs]; [constructor|].
      cbn [flat_map] in Hnn. apply Forall_app in Hnn as [H1 H2].
      constructor; [done|]. by apply IHcs. }
    assert (Forall (λ x, 0 ≤ x) (List.map (λ kc : string * Node, leafSum (snd kc)) children))
      as Hpos.
    { clear -Hnns. induction Hnns as [|kc cs Hkc _ IHcs]; [constructor|].
      cbn [List.map]. constructor; [|done].
      unfold leafSum. apply sumZ_nonneg. by apply Forall_map. }
    assert (Forall (λ kc : string * Node,
                      snd (aggregateCounts (snd kc)) = leafSum (snd kc)
                      ∧ conserved (fst (aggregateCounts (snd kc)))
                      ∧ files (fst (aggregateCounts (snd kc))) = files (snd kc)
                      ∧ wellFormed (fst (aggregateCounts (snd kc)))) children) as Hall.
    { rewrite Forall_forall. intros kc Hkc.
      rewrite Forall_forall in IH, Hwfs, Hnns.
      apply IH; [done|by apply Hwfs|by apply Hnns|].
      etrans; [|exact Hmax]. rewrite Z.add_0_l.
      apply sumZ_elem_le; [done|]. 
      apply list_elem_of_fmap. by exists kc. }
    assert (sumZ (List.map (λ kc : string * Node, snd (aggregateCounts (snd kc))) children)
            = leafSum n) as Hsum.
    { rewrite leafSum_unfold. cbn [IsFile Children n]. rewrite Z.add_0_l. f_equal.
      clear -Hall. induction Hall as [|kc cs (Hkc & _) _ IHcs]; [done|].
      cbn [List.map]. by rewrite Hkc, IHcs. }
    assert (snd (aggregateCounts n) = leafSum n) as Hret.
    { rewrite aggregateCounts_sum by done. cbn [Children n]. rewrite Hsum.
      apply GoIntFacts.wrap_in_range.
      rewrite leafSum_unfold. cbn [IsFile Children n].
      pose proof (sumZ_nonneg _ Hpos).
      unfold GoInt.in_range, GoInt.min_int, GoInt.max_int in *. lia. }
    split; [done|].
    split; [|split].
    + unfold conserved. apply Forall_nodes. split.
      * intros _. rewrite aggregateCounts_Value, Hret, <- Hsum.
        unfold childValues. rewrite aggregateCounts_Children by done.
        cbn [Children n]. rewrite List.map_map. f_equal.
        apply List.map_ext. intros kc. cbn [snd]. by rewrite aggregateCounts_Value.
      * rewrite aggregateCounts_Children by done. cbn [Children n].
        apply Forall_map. eapply Forall_impl; [exact Hall|].
        intros kc (_ & Hc & _). exact Hc.
    + rewrite files_unfold, aggregateCounts_IsFile. cbn [IsFile n app].
      rewrite aggregateCounts_Children by done. cbn [Children n].
      rewrite (files_unfold n). cbn [IsFile Children n app].
      clear -Hall. induction Hall as [|kc cs (_ & _ & Hkc & _) _ IHcs]; [done|].
      cbn [List.map flat_map snd]. by rewrite Hkc, IHcs.
    + apply wellFormed_unfold. rewrite aggregateCounts_IsFile. cbn [IsFile n].
      split; [done|].
      rewrite aggregateCounts_Children by done. cbn [Children n].
      apply Forall_map. eapply Forall_impl; [exact Hall|].
      intros kc (_ & _ & _ & Hc). exact Hc.
Qed.

(** Aggregation keeps every node where it is: the node at an address
    afterwards is the aggregated node that was there before. *)
Lemma aggregateCounts_nodeAt D : ∀ n d,
  wellFormed n → nodeAt D n = Some d →
  nodeAt D (fst (aggregateCounts n)) = Some (fst (aggregateCounts d)).
Proof.
  induction D as [|k D IH]; intros n d Hwf; cbn [nodeAt].
  - by intros [= <-].
  - destruct (lookupChild k (Children n)) as [c|] eqn:Hl; [|discriminate].
    cbn [mbind option_bind]. intros Hd.
    pose proof (wellFormed_parent _ _ _ Hwf Hl) as Hdir.
    rewrite aggregateCounts_Children by done.
    assert (lookupChild k
              (List.map (λ kc : string * Node, (fst kc, fst (aggregateCounts (snd kc))))
                        (Children n))
            = Some (fst (aggregateCounts c))) as ->.
    { clear -Hl. induction (Children n) as [|[k0 c0] cs IHcs]; [done|].
      cbn [List.map lookupChild fst snd] in *.
      destruct (String.eqb k0 k); [by injection Hl as ->|by apply IHcs]. }
    cbn [mbind option_bind]. apply IH; [|done]. by eapply wellFormed_child.
Qed.

End AggregateFacts.


End TreeFacts.

(** ** The two sample executions are executions *)

Module RuntimesFacts.
Import Runtimes.

Lemma insertBy_perm {A} (less : A → A → bool) x l :
  Permutation (insertBy less x l) (x :: l).
Proof.
  induction l as [|y l IH]; cbn [insertBy]; [done|].
  destruct (less y x); [|done].
  rewrite IH. apply perm_swap.
Qed.

Lemma insertionSort_perm {A} (less : A → A → bool) l :
  Permutation (insertionSort less l) l.
Proof.
  induction l as [|x l IH]; cbn [insertionSort fold_right]; [done|].
  fold (insertionSort less l). rewrite insertBy_perm. by constructor.
Qed.

Lemma insertBy_sorted {A} (less : A → A → bool) x l :
  (∀ a b, less a b = true → less b a = false) →
  (∀ a b c, less b a = false → less c b = false → less c a = false) →
  StronglySorted (λ a b, less b a = false) l →
  StronglySorted (λ a b, less b a = false) (insertBy less x l).
Proof.
  intros Hasym Htrans. induction 1 as [|y l Hl IH Hy]; cbn [insertBy].
  - repeat constructor.
  - destruct (less y x) eqn:Hyx.
    + constructor; [done|].
      rewrite (insertBy_perm less x l). constructor; [by apply Hasym|done].
    + constructor; [by constructor|].
      constructor; [done|].
      eapply Forall_impl; [exact Hy|]. intros z Hz. cbn beta in *.
      by apply (Htrans x y z).
Qed.

Lemma insertionSort_sorted {A} (less : A → A → bool) l :
  (∀ a b, less a b = true → less b a = false) →
  (∀ a b c, less b a = false → less c b = false → less c a = false) →
  StronglySorted (λ a b, less b a = false) (insertionSort less l).
Proof.
  intros Hasym Htrans.
  induction l as [|x l IH]; cbn [insertionSort fold_right]; [constructor|].
  by apply insertBy_sorted.
Qed.

(** [range] in insertion order, with a stable sort. *)
Definition stable : Runtime :=
  {| rangeOrder := @inOrder;
     rangeOrder_perm := λ A l, Permutation_refl l;
     sortSlice := @insertionSort;
     sortSlice_perm := @insertionSort_perm;
     sortSlice_sorted := λ A less l, insertionSort_sorted less l |}.

(** [range] in the opposite order, with the same sort. *)
Definition reversed : Runtime :=
  {| rangeOrder := @backwards;
     rangeOrder_perm := λ A l, Permutation_sym (Permutation_rev l);
     sortSlice := @insertionSort;
     sortSlice_perm := @insertionSort_perm;
     sortSlice_sorted := λ A less l, insertionSort_sorted less l |}.

End RuntimesFacts.

(** ** Claims about the tree *)

Module TreeClaims.
Import GoStrings Tree TreeSpec TreeFacts Samples RuntimesFacts.

Lemma nonNegative_files n : nonNegative n → Forall (λ f, 0 ≤ Value f) (files n).
Proof.
  unfold nonNegative, files. rewrite !Forall_forall. intros Hnn f Hf.
  apply Hnn. apply list_elem_of_In. apply list_elem_of_In in Hf.
  by apply List.filter_In in Hf as [? _].
Qed.

(** C9. At every stage of the build no node is a file and has children:
    the tree after any number of entries has [IsFile = false] at every
    node with children; [ensurePath] keeps that so on any tree; and the
    node under which it stores a new child is a directory afterwards, file
    or not before. *)
Theorem files_have_no_children (Join : string → string → string) :
  (∀ name entries k d,
     d ∈ nodes (buildTree Join name (take k entries)) →
     Children d ≠ [] → IsFile d = false)
  ∧ (∀ rootDir pathParts,
       wellFormed rootDir → wellFormed (fst (ensurePath Join rootDir pathParts)))
  ∧ (∀ i n currentPath current part rest,
       part ≠ "" → lookupChild part (Children current) = None →
       IsFile (fst (ensurePathFrom Join i n currentPath current (part :: rest))) = false).
Proof.
  split; [|split].
  - intros name entries k d Hd Hc.
    pose proof (buildTree_wellFormed Join name (take k entries)) as Hwf.
    unfold wellFormed in Hwf. rewrite Forall_forall in Hwf.
    specialize (Hwf d Hd). destruct (IsFile d); [|done].
    by destruct Hc; apply Hwf.
  - intros rootDir pathParts. apply ensurePathFrom_wellFormed.
  - apply ensurePathFrom_reclassifies.
Qed.

Lemma files_have_no_children_witness :
  "b" ≠ "" ∧ lookupChild "b" (Children (NewNode "a" "/a" true)) = None ∧
  IsFile (NewNode "a" "/a" true) = true ∧
  IsFile (fst (ensurePathFrom join 1 2 "/a" (NewNode "a" "/a" true) ["b"])) = false.
Proof.
  split; [discriminate|]. split; [reflexivity|]. split; [reflexivity|].
  apply (proj2 (proj2 (files_have_no_children join))); [discriminate|reflexivity].
Defined.

(** C5. In the tree built from any list of entries with non-negative
    weights that add up to at most [max_int], after aggregation every
    directory holds the sum of the values of its immediate children (0
    when it has none), and the value of the root, which is also the value
    returned, is the sum of the values of all file nodes. *)
Theorem aggregation_conserves `{Runtime} (Join : string → string → string)
        name entries :
  Forall (λ e : string * Z, 0 ≤ snd e) entries →
  weightSum entries ≤ GoInt.max_int →
  let t := fst (aggregateCounts (buildTree Join name entries)) in
  (∀ d, d ∈ nodes t → IsFile d = false → Value d = sumZ (childValues d))
  ∧ (∀ d, d ∈ nodes t → IsFile d = false → Children d = [] → Value d = 0)
  ∧ Value t = leafSum t
  ∧ snd (aggregateCounts (buildTree Join name entries)) = Value t.
Proof.
  intros Hw Hmax t.
  pose proof (buildTree_wellFormed Join name entries) as Hwf.
  destruct (buildTree_bounds Join name entries Hw) as [Hnn Htot].
  pose proof (leafSum_le_totalValue _ Hnn) as Hleaf.
  assert (Forall (λ f, 0 ≤ Value f) (files (buildTree Join name entries))) as Hfiles.
  { by apply nonNegative_files. }
  destruct (aggregateCounts_exact (buildTree Join name entries) Hwf Hfiles)
    as (Hret & Hcons & Hsame & _); [lia|].
  assert (∀ d, d ∈ nodes t → IsFile d = false → Value d = sumZ (childValues d)) as Hdir.
  { intros d Hd. unfold conserved in Hcons. rewrite Forall_forall in Hcons.
    by apply Hcons. }
  split; [done|]. split.
  - intros d Hd Hf Hnil. rewrite (Hdir d Hd Hf). unfold childValues. by rewrite Hnil.
  - subst t. rewrite aggregateCounts_Value. split; [|done].
    rewrite Hret. unfold leafSum. by rewrite Hsame.
Qed.

Lemma aggregation_conserves_witness :
  Forall (λ e : string * Z, 0 ≤ snd e) threeFiles ∧
  weightSum threeFiles ≤ GoInt.max_int ∧
  Value (fst (@aggregateCounts stable (buildTree join "repo" threeFiles))) = 3 ∧
  Value (fst (@aggregateCounts stable (buildTree join "repo" threeFiles)))
  = leafSum (fst (@aggregateCounts stable (buildTree join "repo" threeFiles))).
Proof.
  assert (Forall (λ e : string * Z, 0 ≤ snd e) threeFiles) as Hw.
  { repeat constructor; cbn; lia. }
  assert (weightSum threeFiles ≤ GoInt.max_int) as Hmax.
  { vm_compute. discriminate. }
  split; [exact Hw|]. split; [exact Hmax|]. split; [reflexivity|].
  exact (proj1 (proj2 (proj2
           (@aggregation_conserves stable join "repo" threeFiles Hw Hmax)))).
Defined.

(** A path followed by a slash and more text has the segments of the
    path, then those of the text: a path that names a directory of another
    path is a prefix of it segment by segment. *)
Lemma SplitFrom_slash p r : ∀ cur,
  SplitFrom 0 cur (p +:+ "/" +:+ r) "/" = SplitFrom 0 cur p "/" ++ Split r "/".
Proof.
  induction p as [|c p IH]; intros cur.
  - change ("" +:+ "/" +:+ r) with (String "/" r).
    cbn [SplitFrom]. unfold HasPrefix. cbn [String.prefix].
    destruct (ascii_dec "/" "/") as [_|Hne]; [|done].
    by destruct r.
  - change (String c p +:+ "/" +:+ r) with (String c (p +:+ "/" +:+ r)).
    cbn [SplitFrom]. unfold HasPrefix. cbn [String.prefix].
    assert (∀ s, String.prefix "" s = true) as Hnil by (by intros [|]).
    destruct (ascii_dec "/" c) as [<-|Hne].
    + rewrite !Hnil. cbn [String.length Nat.sub app]. by rewrite IH.
    + apply IH.
Qed.

Lemma address_subpath p r : address (p +:+ "/" +:+ r) = address p ++ address r.
Proof.
  unfold address, pathPartsOf, Split.
  by rewrite SplitFrom_slash, List.map_app, List.filter_app.
Qed.




End TreeClaims.

(** ** Claims about the export *)

Module ExportClaims.
Import GoStrings Tree TreeSpec TreeFacts Exporter Samples Runtimes RuntimesFacts.

Lemma filter_perm {A} (f : A → bool) (l1 l2 : list A) :
  Permutation l1 l2 → Permutation (List.filter f l1) (List.filter f l2).
Proof.
  induction 1 as [|x l1 l2 _ IH|x y l|l1 l2 l3 _ IH1 _ IH2]; cbn [List.filter].
  - done.
  - destruct (f x); [by constructor|done].
  - destruct (f x), (f y); try done. apply perm_swap.
  - by etrans.
Qed.

Lemma filter_map_comm {A B} (g : A → B) (f : B → bool) (l : list A) :
  List.filter f (List.map g l) = List.map g (List.filter (λ x, f (g x)) l).
Proof.
  induction l as [|x l IH]; cbn [List.map List.filter]; [done|].
  destruct (f (g x)); cbn [List.map]; by rewrite IH.
Qed.

Lemma StronglySorted_weaken {A} (R R' : A → A → Prop) (l : list A) :
  (∀ a b, R a b → R' a b) → StronglySorted R l → StronglySorted R' l.
Proof.
  intros HR. induction 1 as [|x l _ IH Hx]; constructor; [done|].
  eapply Forall_impl; [exact Hx|]. intros y. apply HR.
Qed.

Lemma exported_unfold j : exported j = j :: flat_map exported (childList j).
Proof.
  by destruct j as [name value [l|]].
Qed.

Lemma less_asym a b : less a b = true → less b a = false.
Proof. unfold less. rewrite Z.gtb_lt, Z.gtb_ltb, Z.ltb_ge. lia. Qed.

Lemma less_false a b : less b a = false ↔ jValue b ≤ jValue a.
Proof. unfold less. rewrite Z.gtb_ltb, Z.ltb_ge. done. Qed.

Lemma less_trans a b c : less b a = false → less c b = false → less c a = false.
Proof. rewrite !less_false. lia. Qed.

Section ExportFacts.
Context `{Runtime}.

Lemma ToJSONNode_unfold n :
  ToJSONNode n =
  mkJSONNode (Name n) (Value n)
    (if Z.of_nat (length (Children n)) >? 0
     then
       let converted :=
         List.map (λ kc : string * Node,
                     let (k, child) := kc in (k, (Value child, ToJSONNode child)))
                  (Children n) in
       let included :=
         List.filter (λ r : string * (Z * JSONNode), fst (snd r) >? 0)
                     (rangeOrder converted) in
       Some (sortSlice less (List.map (λ r, snd (snd r)) included))
     else None).
Proof. by destruct n. Qed.

(** The exported children are the exports of the children that qualify,
    in some order. *)
Lemma childList_perm n :
  Permutation (childList (ToJSONNode n))
              (List.map (λ kc, ToJSONNode (snd kc)) (List.filter qualifies (Children n))).
Proof.
  rewrite ToJSONNode_unfold. unfold childList. cbn [jChildren].
  destruct (Z.of_nat (length (Children n)) >? 0) eqn:Hlen; cbn [default].
  - rewrite sortSlice_perm.
    rewrite (filter_perm _ _ _ (rangeOrder_perm _ _)).
    rewrite filter_map_comm, List.map_map.
    rewrite (List.filter_ext _ qualifies) by (by intros [k c]).
    apply Permutation_refl'. apply List.map_ext. by intros [k c].
  - destruct (Children n); [done|]. cbn [length] in Hlen.
    rewrite Z.gtb_ltb, Z.ltb_ge in Hlen. lia.
Qed.

(** The children of an exported node are in descending order of value. *)
Lemma childList_descending n : descending (childList (ToJSONNode n)).
Proof.
  rewrite ToJSONNode_unfold. unfold childList, descending. cbn [jChildren].
  destruct (Z.of_nat (length (Children n)) >? 0); cbn [default]; [|constructor].
  eapply StronglySorted_weaken; [|apply sortSlice_sorted].
  - intros a b Hab. by apply less_false.
  - apply less_asym.
  - apply less_trans.
Qed.

End ExportFacts.



(** C7, as stated, fails: two files of equal value, [a] stored before [b],
    are exported as [b], [a] when [range] visits the map from the other
    end, even with a stable sort; and the same aggregated tree is exported
    differently by another execution. *)
Lemma tie_order_is_not_fixed :
  let t := fst (@aggregateCounts stable (buildTree join "repo" tie)) in
  fst (@aggregateCounts reversed (buildTree join "repo" tie)) = t
  ∧ List.map fst (Children t) = ["a"; "b"]
  ∧ childValues t = [1; 1]
  ∧ List.map jName (childList (@ToJSONNode reversed t)) = ["b"; "a"]
  ∧ List.map jName (childList (@ToJSONNode stable t)) = ["a"; "b"]
  ∧ @ToJSONNode reversed t ≠ @ToJSONNode stable t.
Proof.
  cbv zeta. repeat split; try reflexivity.
  vm_compute. discriminate.
Qed.

(** C7, amended. In every node of an exported tree the children are in
    descending order of value, whatever order [range] and [sort.Slice]
    choose among equal values. *)
Theorem children_sorted_by_value `{Runtime} :
  ∀ n j, j ∈ exported (ToJSONNode n) → descending (childList j).
Proof.
  induction n as [name path value isFile children IH] using Node_induction.
  intros j. set (n := mkNode name path value isFile children) in *.
  rewrite exported_unfold. intros [->|Hj]%elem_of_cons; [apply childList_descending|].
  apply list_elem_of_In, in_flat_map in Hj as (c & Hc & Hj).
  apply list_elem_of_In in Hc, Hj.
  rewrite (childList_perm n) in Hc.
  apply list_elem_of_fmap in Hc as (kc & -> & Hkc).
  apply list_elem_of_In, List.filter_In in Hkc as [Hkc _].
  rewrite Forall_forall in IH. apply (IH kc); [by apply list_elem_of_In|done].
Qed.

Lemma children_sorted_by_value_witness :
  let t := fst (@aggregateCounts reversed (buildTree join "repo" threeFiles)) in
  @ToJSONNode reversed t ∈ exported (@ToJSONNode reversed t)
  ∧ List.map jValue (childList (@ToJSONNode reversed t)) = [2; 1]
  ∧ descending (childList (@ToJSONNode reversed t)).
Proof.
  cbv zeta.
  assert (∀ j, j ∈ exported j) as Hroot by (intros j; rewrite exported_unfold; left).
  split; [apply Hroot|]. split; [reflexivity|].
  apply (@children_sorted_by_value reversed
           (fst (@aggregateCounts reversed (buildTree join "repo" threeFiles)))).
  apply Hroot.
Defined.

End ExportClaims.

(** ** Claims about the whole pass *)

Module PipelineClaims.
Import GoStrings GoFilepath GoScanner Parser ParserFacts Tree TreeSpec TreeFacts.
Import Exporter Pipeline Samples RuntimesFacts.

Lemma processLines_none_accepted os lines : ∀ st,
  Forall (λ line, accepted os line = None) lines →
  ∃ st', processLines os st lines = Some st' ∧
         fileChangeCounts st' = fileChangeCounts st.
Proof.
  induction lines as [|line lines IH]; intros st Hall; cbn [processLines]; [by eauto|].
  inversion Hall as [|? ? Hline Hrest]; subst.
  destruct (processLine_skipped os st line Hline) as (st1 & -> & Heq1).
  cbn [mbind option_bind].
  destruct (IH st1 Hrest) as (st2 & -> & Heq2). exists st2. split; [done|congruence].
Qed.

Lemma rangeOrder_nil `{Runtime} {A} : rangeOrder (@nil (string * A)) = [].
Proof. apply Permutation_nil. symmetry. apply rangeOrder_perm. Qed.

(** A line without fields is never accepted: with fewer than two fields
    every path through lines 171-212 ends in a warning. *)
Lemma blank_line_not_accepted os line : Fields line = [] → accepted os line = None.
Proof.
  intros Hf. unfold accepted, splitLine. rewrite Hf. cbn [length].
  destruct (String.eqb line ""); [done|].
  change (Z.of_nat 0 <? 3) with true. cbn match.
  destruct (Contains line "=>"); [|done].
  destruct (renamePath line) as [filePath|]; [|done]. cbn [mbind option_bind].
  by destruct (String.eqb filePath "").
Qed.

(** When no line is accepted the result is the bare root. *)
Lemma analyze_nothing_accepted `{Runtime} os Join base output :
  Forall (λ line, accepted os line = None) (tokens (rawLines output)) →
  analyze os Join base output = Some (NewNode (rootDirName base) "/" false).
Proof.
  intros Hall. unfold analyze, parse.
  destruct (processLines_none_accepted os _ initial Hall) as (st & -> & Heq).
  cbn [mbind option_bind].
  assert (fileChangeCounts (if failed (rawLines output) then warn WarnScanner st else st)
          = ∅) as ->.
  { by destruct (failed (rawLines output)). }
  rewrite map_to_list_empty, rangeOrder_nil. unfold buildTree. cbn [fold_left].
  rewrite aggregateCounts_unfold. cbn [NewNode IsFile Children List.map fst].
  by rewrite rangeOrder_nil.
Qed.

(** C8. When the output of [git log] has no lines, or only blank ones
    (lines without any field: empty, or white space only), the analysis
    succeeds with a root of value 0 without children, and the
    handler of [/data] encodes it as an object with a name and the value
    0, without a [children] field. *)
Theorem empty_input_is_not_an_error `{Runtime} os Join base output :
  Forall (λ line, Fields line = []) (tokens (rawLines output)) →
  (∃ root, analyze os Join base output = Some root
           ∧ Value root = 0 ∧ Children root = [] ∧ IsFile root = false
           ∧ Name root = rootDirName base)
  ∧ serve os Join base output
    = Some (JObject [("name", JString (rootDirName base)); ("value", JNumber 0)]).
Proof.
  intros Hempty.
  assert (analyze os Join base output = Some (NewNode (rootDirName base) "/" false))
    as Hroot.
  { apply analyze_nothing_accepted. eapply Forall_impl; [exact Hempty|].
    apply blank_line_not_accepted. }
  split.
  - eexists. split; [exact Hroot|]. done.
  - unfold serve. rewrite Hroot. cbn [mbind option_bind].
    rewrite ExportClaims.ToJSONNode_unfold. reflexivity.
Qed.

Lemma empty_input_is_not_an_error_witness :
  Forall (λ line, Fields line = []) (tokens (rawLines "")) ∧
  Forall (λ line, Fields line = [])
         (tokens (rawLines (newline +:+ "  " +:+ tab +:+ newline +:+ newline))) ∧
  @serve stable Unix join "repo" ""
  = Some (JObject [("name", JString "repo"); ("value", JNumber 0)]) ∧
  @serve stable Unix join "repo" (newline +:+ "  " +:+ tab +:+ newline +:+ newline)
  = Some (JObject [("name", JString "repo"); ("value", JNumber 0)]).
Proof.
  assert (Forall (λ line, Fields line = []) (tokens (rawLines ""))) as H0
    by (vm_compute; constructor).
  assert (Forall (λ line, Fields line = [])
                 (tokens (rawLines (newline +:+ "  " +:+ tab +:+ newline +:+ newline))))
    as H3 by (vm_compute; repeat constructor).
  split; [exact H0|]. split; [exact H3|]. split.
  - exact (proj2 (@empty_input_is_not_an_error stable Unix join "repo" "" H0)).
  - exact (proj2 (@empty_input_is_not_an_error stable Unix join "repo" _ H3)).
Defined.

End PipelineClaims.

(** ** The association lists are maps *)

Module ChildrenFacts.
Import GoStrings Tree TreeSpec TreeFacts.

Lemma keyed_unfold n :
  keyed n ↔
  (NoDup (List.map fst (Children n))
   ∧ Forall (λ kc : string * Node, Name (snd kc) = fst kc) (Children n))
  ∧ Forall (λ kc : string * Node, keyed (snd kc)) (Children n).
Proof. unfold keyed. apply Forall_nodes. Qed.

Lemma keys_updateChild k c cs :
  List.map fst (updateChild k c cs) = List.map fst cs.
Proof.
  induction cs as [|[k0 c0] rest IH]; cbn [updateChild List.map]; [done|].
  destruct (String.eqb k0 k); cbn [List.map fst]; by rewrite ?IH.
Qed.

Lemma lookupChild_None_keys k cs :
  lookupChild k cs = None → ¬ In k (List.map fst cs).
Proof.
  induction cs as [|[k0 c0] rest IH]; cbn [lookupChild List.map fst]; [by intros _ []|].
  destruct (String.eqb k0 k) eqn:Hk; [discriminate|].
  apply String.eqb_neq in Hk. intros Hl [Heq|Hin]; [done|by apply IH].
Qed.

Lemma keyed_child n k c : keyed n → lookupChild k (Children n) = Some c → keyed c.
Proof.
  intros [_ Hcs]%keyed_unfold Hl%lookupChild_elem.
  rewrite Forall_forall in Hcs. apply (Hcs (k, c)). done.
Qed.

Section Keys.
Variable Join : string → string → string.

Lemma ensurePathFrom_Name pathParts : ∀ i n currentPath current,
  Name (fst (ensurePathFrom Join i n currentPath current pathParts)) = Name current.
Proof.
  induction pathParts as [|part rest IH]; intros i n currentPath current;
    cbn [ensurePathFrom]; [done|].
  destruct (String.eqb part ""); [by apply IH|].
  destruct (lookupChild part (Children current)) as [child|].
  - by destruct (ensurePathFrom Join (i + 1) n (Join currentPath part) child rest).
  - by destruct (ensurePathFrom Join (i + 1) n (Join currentPath part) _ rest).
Qed.

Lemma setValue_Name addr v n : Name (setValue addr v n) = Name n.
Proof.
  destruct addr as [|k addr]; cbn [setValue]; [done|].
  by destruct (lookupChild k (Children n)).
Qed.

(** [ensurePath] stores a child under a key only when the key is free,
    and under the name of the child. *)
Lemma ensurePathFrom_keyed pathParts : ∀ i n currentPath current,
  keyed current →
  keyed (fst (ensurePathFrom Join i n currentPath current pathParts)).
Proof.
  induction pathParts as [|part rest IH]; intros i n currentPath current Hk;
    cbn [ensurePathFrom]; [done|].
  destruct (String.eqb part ""); [by apply IH|].
  destruct (lookupChild part (Children current)) as [child|] eqn:Hl.
  - pose proof (IH (i + 1) n (Join currentPath part) child (keyed_child _ _ _ Hk Hl))
      as Hchild.
    pose proof (ensurePathFrom_Name rest (i + 1) n (Join currentPath part) child) as Hname.
    destruct (ensurePathFrom Join (i + 1) n (Join currentPath part) child rest)
      as [child' addr]. cbn [fst] in *.
    apply keyed_unfold in Hk as [[Hnd Hnames] Hcs].
    apply keyed_unfold. cbn [Children]. rewrite keys_updateChild.
    split; [split; [done|]|].
    + apply Forall_updateChild; [done|]. intros c0 Hc0. cbn [fst snd].
      rewrite Hname. rewrite Hl in Hc0. injection Hc0 as <-.
      rewrite Forall_forall in Hnames.
      apply (Hnames (part, child)). by apply lookupChild_elem.
    + by apply Forall_updateChild.
  - assert (keyed (NewNode part (Join currentPath part) (i =? n - 1))) as Hnew.
    { apply keyed_unfold. cbn. repeat constructor. }
    pose proof (IH (i + 1) n (Join currentPath part) _ Hnew) as Hchild.
    pose proof (ensurePathFrom_Name rest (i + 1) n (Join currentPath part)
                  (NewNode part (Join currentPath part) (i =? n - 1))) as Hname.
    destruct (ensurePathFrom Join (i + 1) n (Join currentPath part) _ rest)
      as [child' addr]. cbn [fst] in *.
    apply keyed_unfold in Hk as [[Hnd Hnames] Hcs].
    apply keyed_unfold. cbn [Children]. split; [split|].
    + rewrite List.map_app. cbn [List.map fst].
      apply NoDup_app. split; [done|]. split; [|apply NoDup_singleton].
      intros x Hx Hx2. apply list_elem_of_In in Hx, Hx2.
      destruct Hx2 as [<-|[]]. by apply (lookupChild_None_keys _ _ Hl).
    + apply Forall_app. split; [done|]. constructor; [|constructor]. by cbn [fst snd].
    + apply Forall_app. split; [done|]. by constructor.
Qed.

Lemma setValue_keyed addr v : ∀ n, keyed n → keyed (setValue addr v n).
Proof.
  induction addr as [|k rest IH]; intros n Hk; cbn [setValue].
  - apply keyed_unfold in Hk. by apply keyed_unfold.
  - destruct (lookupChild k (Children n)) as [c|] eqn:Hl; [|done].
    pose proof (keyed_child _ _ _ Hk Hl) as Hc.
    apply keyed_unfold in Hk as [[Hnd Hnames] Hcs].
    apply keyed_unfold. cbn [Children]. rewrite keys_updateChild.
    split; [split; [done|]|].
    + apply Forall_updateChild; [done|]. intros c0 Hc0. cbn [fst snd].
      rewrite setValue_Name. rewrite Hl in Hc0. injection Hc0 as <-.
      rewrite Forall_forall in Hnames.
      apply (Hnames (k, c)). by apply lookupChild_elem.
    + apply Forall_updateChild; [done|]. intros _ _. cbn [snd]. by apply IH.
Qed.

(** In a built tree every [Children] list has unique keys and every child
    carries its key as its name. *)
Lemma buildTree_keyed name entries : keyed (buildTree Join name entries).
Proof.
  unfold buildTree.
  assert (keyed (NewNode name "/" false)) as Hroot.
  { apply keyed_unfold. cbn. repeat constructor. }
  revert Hroot. generalize (NewNode name "/" false).
  induction entries as [|[filePath count] entries IH]; intros rootDir Hk;
    cbn [fold_left]; [done|].
  apply IH. unfold insertEntry. destruct (count =? 0); [done|].
  unfold ensurePath.
  pose proof (ensurePathFrom_keyed (pathPartsOf filePath) 0
                (Z.of_nat (length (pathPartsOf filePath))) "/" rootDir Hk) as H.
  destruct (ensurePathFrom Join 0 _ "/" rootDir (pathPartsOf filePath)) as [r addr].
  by apply setValue_keyed.
Qed.

End Keys.

End ChildrenFacts.

(** ** From the text to the aggregated tree *)

Module EndToEnd.
Import GoStrings GoFilepath GoScanner Parser ParserFacts Tree TreeSpec TreeFacts.
Import Pipeline.

Lemma weightSum_perm l1 l2 : Permutation l1 l2 → weightSum l1 = weightSum l2.
Proof. intros Hp. unfold weightSum. apply sumZ_perm. by apply Permutation_map. Qed.

(** Storing [v] under a key moves the sum of the weights by the
    difference to what the key held, 0 when it was absent. *)
Lemma weightSum_insert (m : gmap string Z) q v :
  weightSum (map_to_list (<[q := v]> m))
  = weightSum (map_to_list m) - default 0 (m !! q) + v.
Proof.
  destruct (m !! q) as [old|] eqn:Hq; cbn [default].
  - rewrite <- (insert_delete_eq m q v).
    rewrite (weightSum_perm _ _ (map_to_list_insert (delete q m) q v
                                   (lookup_delete_eq m q))).
    rewrite <- (insert_delete_id m q old Hq) at 2.
    rewrite (weightSum_perm _ _ (map_to_list_insert (delete q m) q old
                                   (lookup_delete_eq m q))).
    unfold weightSum. cbn [List.map snd]. rewrite !sumZ_cons. unfold id. lia.
  - rewrite (weightSum_perm _ _ (map_to_list_insert m q v Hq)).
    unfold weightSum. cbn [List.map snd]. rewrite sumZ_cons. lia.
Qed.

Lemma weight_le_weightSum (m : gmap string Z) q w :
  (∀ p v, m !! p = Some v → 1 ≤ v) → m !! q = Some w →
  w ≤ weightSum (map_to_list m).
Proof.
  intros Hpos Hq. unfold weightSum. apply sumZ_elem_le.
  - apply Forall_map, Forall_forall. intros [p v] Hin%elem_of_map_to_list.
    cbn [snd]. pose proof (Hpos p v Hin). lia.
  - apply list_elem_of_fmap. exists (q, w). split; [done|].
    by apply elem_of_map_to_list.
Qed.

(** The loop keeps every weight at 1 or more and the sum of the weights
    at no more than the number of lines read, as long as that number fits
    an [int]. *)
Lemma processLines_weights os lines : ∀ st k,
  (∀ p v, fileChangeCounts st !! p = Some v → 1 ≤ v) →
  weightSum (map_to_list (fileChangeCounts st)) ≤ k →
  k + Z.of_nat (length lines) ≤ GoInt.max_int →
  ∃ st', processLines os st lines = Some st'
         ∧ (∀ p v, fileChangeCounts st' !! p = Some v → 1 ≤ v)
         ∧ weightSum (map_to_list (fileChangeCounts st')) ≤ k + Z.of_nat (length lines).
Proof.
  induction lines as [|line lines IH]; intros st k Hpos Hsum Hmax;
    cbn [processLines length] in *.
  - exists st. split; [done|]. split; [done|lia].
  - destruct (accepted os line) as [q|] eqn:Ha.
    + rewrite (processLine_accepted _ _ _ _ Ha). cbn [mbind option_bind].
      set (old := default 0 (fileChangeCounts st !! q)).
      assert (0 ≤ old ≤ weightSum (map_to_list (fileChangeCounts st))) as Hold.
      { subst old. destruct (fileChangeCounts st !! q) as [w|] eqn:Hq; cbn [default].
        - pose proof (Hpos q w Hq). pose proof (weight_le_weightSum _ q w Hpos Hq).
          unfold id. lia.
        - split; [lia|]. unfold weightSum. apply sumZ_nonneg.
          apply Forall_map, Forall_forall. intros [p v] Hin%elem_of_map_to_list.
          cbn [snd]. pose proof (Hpos p v Hin). lia. }
      assert (GoInt.add old 1 = old + 1) as Hadd.
      { apply GoIntFacts.add_exact.
        unfold GoInt.in_range, GoInt.min_int, GoInt.max_int in *. lia. }
      destruct (IH (bump q 1 (countLine st)) (k + 1)) as (st' & Hst' & Hpos' & Hsum').
      * intros p v. unfold bump, countLine. cbn [fileChangeCounts]. fold old.
        rewrite Hadd. destruct (decide (q = p)) as [->|Hne].
        -- rewrite lookup_insert_eq. intros [= <-]. lia.
        -- rewrite lookup_insert_ne by done. apply Hpos.
      * unfold bump, countLine. cbn [fileChangeCounts]. fold old.
        rewrite Hadd, weightSum_insert. fold old. lia.
      * lia.
      * exists st'. split; [done|]. split; [done|]. lia.
    + destruct (processLine_skipped os st line Ha) as (st1 & -> & Heq).
      cbn [mbind option_bind].
      destruct (IH st1 k) as (st' & Hst' & Hpos' & Hsum').
      * rewrite Heq. apply Hpos.
      * by rewrite Heq.
      * lia.
      * exists st'. split; [done|]. split; [done|]. lia.
Qed.

(** For any text whose number of lines fits an [int], the analysis
    succeeds, and in its result no file has children, every directory
    holds the sum of its children and the root holds the sum of the
    files. *)
Lemma analyze_conserves `{Runtime} os Join base output :
  Z.of_nat (length (tokens (rawLines output))) ≤ GoInt.max_int →
  ∃ t, analyze os Join base output = Some t
       ∧ wellFormed t ∧ conserved t ∧ Value t = leafSum t.
Proof.
  intros Hmax. unfold analyze, parse.
  destruct (processLines_weights os (tokens (rawLines output)) initial 0)
    as (st & -> & Hpos & Hsum).
  { intros p v. cbn [initial fileChangeCounts]. by rewrite lookup_empty. }
  { cbn [initial fileChangeCounts]. by rewrite map_to_list_empty. }
  { lia. }
  cbn [mbind option_bind].
  set (m := fileChangeCounts (if failed (rawLines output) then warn WarnScanner st else st)).
  assert (m = fileChangeCounts st) as Hm by (subst m; by destruct (failed _)).
  set (entries := rangeOrder (map_to_list m)).
  assert (Permutation entries (map_to_list (fileChangeCounts st))) as Hperm.
  { subst entries. rewrite Hm. apply rangeOrder_perm. }
  assert (Forall (λ e : string * Z, 0 ≤ snd e) entries) as Hw.
  { rewrite Hperm. apply Forall_forall. intros [p v] Hin%elem_of_map_to_list.
    cbn [snd]. pose proof (Hpos p v Hin). lia. }
  assert (weightSum entries ≤ GoInt.max_int) as Hbound.
  { rewrite (weightSum_perm _ _ Hperm). lia. }
  set (t0 := buildTree Join (rootDirName base) entries).
  pose proof (buildTree_wellFormed Join (rootDirName base) entries) as Hwf.
  destruct (buildTree_bounds Join (rootDirName base) entries Hw) as [Hnn Htot].
  pose proof (leafSum_le_totalValue _ Hnn) as Hleaf.
  destruct (aggregateCounts_exact t0 Hwf (TreeClaims.nonNegative_files _ Hnn))
    as (Hret & Hcons & Hsame & Hwf'); [subst t0; lia|].
  eexists. split; [done|]. split; [done|]. split; [done|].
  rewrite aggregateCounts_Value, Hret. unfold leafSum. by rewrite Hsame.
Qed.

End EndToEnd.

(** * Further properties *)

(** ** The line loop as a whole *)

Module ParserExtras.
Import GoStrings GoFilepath GoScanner Parser ParserFacts ParserSpec.
Import Tree TreeSpec TreeFacts Exporter Pipeline Samples RuntimesFacts.

(** X1. No text makes the analysis panic: the parser, the analysis and the
    handler all return a result, because every slice and index expression
    of the line loop is within bounds on every line. *)
Theorem analysis_never_panics `{Runtime} os Join base output :
  is_Some (parse os output)
  ∧ is_Some (analyze os Join base output)
  ∧ is_Some (serve os Join base output).
Proof.
  assert (is_Some (parse os output)) as [st Hst].
  { unfold parse.
    destruct (processLines_total os (tokens (rawLines output)) initial) as [st ->].
    by eexists. }
  assert (is_Some (analyze os Join base output)) as [t Ht].
  { unfold analyze. rewrite Hst. by eexists. }
  split; [by eexists|]. split; [by eexists|].
  unfold serve. rewrite Ht. by eexists.
Qed.

Lemma occurrences_perm os p l1 l2 :
  Permutation l1 l2 → occurrences os p l1 = occurrences os p l2.
Proof.
  intros Hp. unfold occurrences. apply Permutation_length.
  by apply ExportClaims.filter_perm.
Qed.

(** The loop on two token lists that are rearrangements of each other
    ends with the same [fileChangeCounts]. *)
Lemma counts_ignore_token_order os lines lines' :
  Permutation lines lines' →
  fileChangeCounts <$> processLines os initial lines
  = fileChangeCounts <$> processLines os initial lines'.
Proof.
  intros Hp.
  destruct (ParserClaims.processLines_counts os lines) as (st & -> & Hm).
  destruct (ParserClaims.processLines_counts os lines') as (st' & -> & Hm').
  cbn. f_equal. apply map_eq. intros p.
  by rewrite Hm, Hm', (occurrences_perm os p _ _ Hp).
Qed.

(** The line counter goes up by one for every line that is not empty. *)
Lemma processLine_processedLines os st line st' :
  processLine os st line = Some st' →
  processedLines st' =
  if String.eqb line "" then processedLines st else GoInt.add (processedLines st) 1.
Proof.
  unfold processLine. destruct (String.eqb line ""); [by intros [= <-]|].
  destruct (splitLine line) as [[w|[[a d] f]]|]; cbn [mbind option_bind];
    [by intros [= <-]| |discriminate].
  destruct (negb _); by intros [= <-].
Qed.

Lemma accepted_not_empty os line p : accepted os line = Some p → String.eqb line "" = false.
Proof. unfold accepted. by destruct (String.eqb line ""). Qed.

Lemma weights_account_from os lines : ∀ st k c,
  (∀ p v, fileChangeCounts st !! p = Some v → 1 ≤ v) →
  weightSum (map_to_list (fileChangeCounts st)) = k →
  processedLines st = c →
  0 ≤ k → 0 ≤ c →
  k + Z.of_nat (length lines) ≤ GoInt.max_int →
  c + Z.of_nat (length lines) ≤ GoInt.max_int →
  ∃ st', processLines os st lines = Some st'
         ∧ (∀ p v, fileChangeCounts st' !! p = Some v → 1 ≤ v)
         ∧ weightSum (map_to_list (fileChangeCounts st'))
           = k + Z.of_nat (acceptedCount os lines)
         ∧ processedLines st' = c + Z.of_nat (nonEmptyCount lines).
Proof.
  induction lines as [|line lines IH]; intros st k c Hpos Hsum Hcnt Hk Hc Hmaxk Hmaxc;
    cbn [processLines length] in *.
  - exists st. split; [done|]. split; [done|]. unfold acceptedCount, nonEmptyCount.
    cbn. split; lia.
  - unfold acceptedCount, nonEmptyCount in *. cbn [List.filter].
    destruct (accepted os line) as [q|] eqn:Ha.
    + pose proof (accepted_not_empty _ _ _ Ha) as Hne.
      rewrite (processLine_accepted _ _ _ _ Ha). cbn [mbind option_bind].
      rewrite Hne, bool_decide_eq_true_2 by (by eexists). cbn [negb length].
      set (old := default 0 (fileChangeCounts st !! q)).
      assert (0 ≤ old ≤ weightSum (map_to_list (fileChangeCounts st))) as Hold.
      { subst old. destruct (fileChangeCounts st !! q) as [w|] eqn:Hq; cbn [default].
        - pose proof (Hpos q w Hq).
          pose proof (EndToEnd.weight_le_weightSum _ q w Hpos Hq). unfold id. lia.
        - split; [lia|]. unfold weightSum. apply sumZ_nonneg.
          apply Forall_map, Forall_forall. intros [p v] Hin%elem_of_map_to_list.
          cbn [snd]. pose proof (Hpos p v Hin). lia. }
      assert (GoInt.add old 1 = old + 1) as Hadd.
      { apply GoIntFacts.add_exact.
        unfold GoInt.in_range, GoInt.min_int, GoInt.max_int in *. lia. }
      assert (GoInt.add (processedLines st) 1 = c + 1) as Haddc.
      { rewrite Hcnt. apply GoIntFacts.add_exact.
        unfold GoInt.in_range, GoInt.min_int, GoInt.max_int in *. lia. }
      destruct (IH (bump q 1 (countLine st)) (k + 1) (c + 1))
        as (st' & Hst' & Hpos' & Hsum' & Hcnt'); try lia.
      * intros p v. unfold bump, countLine. cbn [fileChangeCounts]. fold old.
        rewrite Hadd. destruct (decide (q = p)) as [->|Hneq].
        -- rewrite lookup_insert_eq. intros [= <-]. lia.
        -- rewrite lookup_insert_ne by done. apply Hpos.
      * unfold bump, countLine. cbn [fileChangeCounts]. fold old.
        rewrite Hadd, EndToEnd.weightSum_insert. fold old. lia.
      * done.
      * exists st'. split; [done|]. split; [done|]. split; lia.
    + destruct (processLine_skipped os st line Ha) as (st1 & Hst1 & Heq).
      pose proof (processLine_processedLines _ _ _ _ Hst1) as Hp1.
      rewrite Hst1. cbn [mbind option_bind].
      rewrite bool_decide_eq_false_2 by (by intros [? ?]).
      destruct (String.eqb line "") eqn:Hne; cbn [negb length].
      * destruct (IH st1 k c) as (st' & Hst' & Hpos' & Hsum' & Hcnt'); try lia;
          try congruence.
        { rewrite Heq. apply Hpos. }
        exists st'. split; [done|]. split; [done|]. split; lia.
      * assert (GoInt.add (processedLines st) 1 = c + 1) as Haddc.
        { rewrite Hcnt. apply GoIntFacts.add_exact.
          unfold GoInt.in_range, GoInt.min_int, GoInt.max_int in *. lia. }
        destruct (IH st1 k (c + 1)) as (st' & Hst' & Hpos' & Hsum' & Hcnt'); try lia;
          try congruence.
        { rewrite Heq. apply Hpos. }
        exists st'. split; [done|]. split; [done|]. split; lia.
Qed.

(** The loop on a list of at most [max_int] tokens: every recorded
    weight is at least 1, the weights add up to the number of accepted
    tokens, and [processedLines] is the number of tokens that are not
    empty. *)
Lemma weights_account_for_tokens os lines :
  Z.of_nat (length lines) ≤ GoInt.max_int →
  ∃ st, processLines os initial lines = Some st
        ∧ (∀ p v, fileChangeCounts st !! p = Some v → 1 ≤ v)
        ∧ weightSum (map_to_list (fileChangeCounts st)) = Z.of_nat (acceptedCount os lines)
        ∧ processedLines st = Z.of_nat (nonEmptyCount lines).
Proof.
  intros Hmax.
  destruct (weights_account_from os lines initial 0 0) as (st & Hst & Hpos & Hsum & Hcnt);
    try lia; try done.
  exists st. split; [done|]. split; [done|]. split; lia.
Qed.

End ParserExtras.

(** ** The scanner *)

Module ScannerExtras.
Import GoStrings GoStringsFacts GoFilepath GoScanner Parser ParserFacts ScannerSpec.

Lemma append_empty_r s : s +:+ "" = s.
Proof.
  induction s as [|c s IH]; [done|].
  change (String c s +:+ "") with (String c (s +:+ "")). by rewrite IH.
Qed.

Lemma append_byte cur c s : (cur +:+ String c "") +:+ s = cur +:+ String c s.
Proof.
  induction cur as [|x cur IH]; [done|].
  change ((String x cur +:+ String c "") +:+ s)
    with (String x ((cur +:+ String c "") +:+ s)).
  by rewrite IH.
Qed.

Lemma prefix_nil s : String.prefix "" s = true.
Proof. by destruct s. Qed.

Lemma HasPrefix_byte c d s :
  HasPrefix (String c s) (String d "") = bool_decide (d = c).
Proof.
  unfold HasPrefix. cbn [String.prefix].
  destruct (ascii_dec d c) as [->|Hne].
  - by rewrite prefix_nil, bool_decide_eq_true_2.
  - by rewrite bool_decide_eq_false_2.
Qed.

Lemma IndexFrom_shift s substr : ∀ i j,
  (IndexFrom i s substr =? -1) = (IndexFrom j s substr =? -1) ∨ i < 0 ∨ j < 0.
Proof.
  induction s as [|c s IH]; intros i j; cbn [IndexFrom];
    destruct (decide (i < 0)) as [?|Hi]; auto;
    destruct (decide (j < 0)) as [?|Hj]; auto; left.
  - destruct (HasPrefix "" substr); [|done].
    destruct (Z.eqb_spec i (-1)), (Z.eqb_spec j (-1)); lia.
  - destruct (HasPrefix (String c s) substr).
    + destruct (Z.eqb_spec i (-1)), (Z.eqb_spec j (-1)); lia.
    + destruct (IH (i + 1) (j + 1)) as [?|[?|?]]; [done|lia|lia].
Qed.

(** A string without the byte [d], in Go's terms. *)
Lemma Contains_byte_cons c s d :
  Contains (String c s) (String d "") = false ↔
  c ≠ d ∧ Contains s (String d "") = false.
Proof.
  unfold Contains, Index. cbn [IndexFrom]. rewrite HasPrefix_byte.
  destruct (decide (d = c)) as [->|Hne].
  - rewrite bool_decide_eq_true_2 by done. split; [discriminate|by intros [? _]].
  - rewrite bool_decide_eq_false_2 by done. change (0 + 1) with 1.
    pose proof (IndexFrom_bounds s (String d "") 1) as H1.
    pose proof (IndexFrom_bounds s (String d "") 0) as H0.
    destruct (IndexFrom_shift s (String d "") 1 0) as [Hs|[?|?]]; [|lia|lia].
    rewrite !Z.geb_leb, !Z.leb_gt.
    destruct (Z.eqb_spec (IndexFrom 1 s (String d "")) (-1)),
             (Z.eqb_spec (IndexFrom 0 s (String d "")) (-1)); try discriminate;
      split; [intros ?; split; [congruence|lia] | intros [_ ?]; lia
             |intros ?; split; [congruence|lia] | intros [_ ?]; lia].
Qed.

(** Cutting at a byte: text without the byte is one piece, and a piece
    ends where the byte stands. *)
Lemma SplitFrom_no_byte d s : ∀ cur,
  Contains s (String d "") = false →
  SplitFrom 0 cur s (String d "") = [cur +:+ s].
Proof.
  induction s as [|c s IH]; intros cur Hno; cbn [SplitFrom].
  - by rewrite append_empty_r.
  - apply Contains_byte_cons in Hno as [Hne Hno].
    rewrite HasPrefix_byte, bool_decide_eq_false_2 by done.
    by rewrite IH, append_byte.
Qed.

Lemma SplitFrom_at_byte d s rest : ∀ cur,
  Contains s (String d "") = false →
  SplitFrom 0 cur (s +:+ String d rest) (String d "")
  = (cur +:+ s) :: Split rest (String d "").
Proof.
  induction s as [|c s IH]; intros cur Hno.
  - change ("" +:+ String d rest) with (String d rest). cbn [SplitFrom].
    rewrite HasPrefix_byte, bool_decide_eq_true_2 by done.
    cbn [String.length Nat.sub]. by rewrite append_empty_r.
  - apply Contains_byte_cons in Hno as [Hne Hno].
    change (String c s +:+ String d rest) with (String c (s +:+ String d rest)).
    cbn [SplitFrom]. rewrite HasPrefix_byte, bool_decide_eq_false_2 by done.
    by rewrite IH, append_byte.
Qed.

Lemma Split_unlines ls :
  Forall (λ l, Contains l newline = false) ls →
  Split (unlines ls) newline = ls ++ [""].
Proof.
  induction 1 as [|l ls Hl Hls IH]; [done|].
  cbn [unlines fold_right app]. fold (unlines ls).
  change newline with (String "010" "") in *.
  change (l +:+ String "010" "" +:+ unlines ls) with (l +:+ String "010" (unlines ls)).
  unfold Split at 1. rewrite SplitFrom_at_byte by done. by rewrite IH.
Qed.

(** The scanner returns the lines of a text, in order. *)
Lemma rawLines_unlines ls :
  Forall (λ l, Contains l newline = false) ls → rawLines (unlines ls) = ls.
Proof.
  intros Hls. unfold rawLines. rewrite Split_unlines by done.
  rewrite List.last_last, List.removelast_last. done.
Qed.

Lemma tokens_short ls :
  Forall (λ l, tooLong l = false) ls → tokens ls = List.map dropCR ls.
Proof. induction 1 as [|l ls Hl _ IH]; cbn [tokens List.map]; [done|]. by rewrite Hl, IH. Qed.

Lemma tokens_cut before long after :
  Forall (λ l, tooLong l = false) before → tooLong long = true →
  tokens (before ++ long :: after) = List.map dropCR before
  ∧ failed (before ++ long :: after) = true.
Proof.
  intros Hb Hl. split.
  - induction Hb as [|l ls Hs _ IH]; cbn [tokens List.map app]; [by rewrite Hl|].
    by rewrite Hs, IH.
  - unfold failed. rewrite existsb_app. cbn [existsb]. rewrite Hl.
    by rewrite orb_true_r.
Qed.

(** X4. A line of 64 KiB or more ends the pass: the lines before it are
    processed as usual, every line after it is ignored, and the only trace
    is the scanner warning that is logged after the loop. *)
Theorem overlong_line_ends_the_pass os before long after :
  Forall (λ l, Contains l newline = false) (before ++ long :: after) →
  Forall (λ l, tooLong l = false) before →
  tooLong long = true →
  parse os (unlines (before ++ long :: after))
  = st ← processLines os initial (List.map dropCR before); Some (warn WarnScanner st).
Proof.
  intros Hnl Hshort Hlong. unfold parse.
  rewrite rawLines_unlines by done.
  destruct (tokens_cut before long after Hshort Hlong) as [-> ->]. done.
Qed.

Lemma overlong_line_ends_the_pass_witness :
  Forall (λ l, Contains l newline = false)
         (["1 0 a"] ++ overlong :: ["1 0 b"])
  ∧ tooLong (overlong) = true
  ∧ (fileChangeCounts <$> parse Unix (unlines (["1 0 a"] ++ overlong :: ["1 0 b"])))
    = Some {[ "a" := 1 ]}.
Proof.
  assert (Forall (λ l, Contains l newline = false)
                 (["1 0 a"] ++ overlong :: ["1 0 b"])) as Hnl.
  { repeat constructor; vm_compute; reflexivity. }
  assert (Forall (λ l, tooLong l = false) ["1 0 a"]) as Hshort.
  { repeat constructor. }
  assert (tooLong (overlong) = true) as Hlong by (vm_compute; reflexivity).
  split; [exact Hnl|]. split; [exact Hlong|].
  rewrite (overlong_line_ends_the_pass Unix ["1 0 a"] (overlong) ["1 0 b"]
             Hnl Hshort Hlong).
  reflexivity.
Defined.

Lemma Contains_byte_snoc s c d :
  Contains s (String d "") = false → c ≠ d →
  Contains (s +:+ String c "") (String d "") = false.
Proof.
  intros Hs Hc. induction s as [|x s IH].
  - apply Contains_byte_cons. split; [done|reflexivity].
  - apply Contains_byte_cons in Hs as [Hx Hs].
    change (String x s +:+ String c "") with (String x (s +:+ String c "")).
    apply Contains_byte_cons. split; [done|by apply IH].
Qed.

Lemma list_of_append s t :
  list_ascii_of_string (s +:+ t) = list_ascii_of_string s ++ list_ascii_of_string t.
Proof.
  induction s as [|c s IH]; [done|].
  change (String c s +:+ t) with (String c (s +:+ t)). cbn [list_ascii_of_string app].
  by rewrite IH.
Qed.

Lemma revString_snoc s c : revString (s +:+ String c "") = String c (revString s).
Proof.
  unfold revString. rewrite list_of_append. cbn [list_ascii_of_string].
  by rewrite List.rev_app_distr.
Qed.

Lemma length_append s t :
  String.length (s +:+ t) = (String.length s + String.length t)%nat.
Proof.
  induction s as [|c s IH]; [done|].
  change (String c s +:+ t) with (String c (s +:+ t)). cbn [String.length]. by rewrite IH.
Qed.

Lemma substring_front s t : String.substring 0 (String.length s) (s +:+ t) = s.
Proof.
  induction s as [|c s IH]; [by destruct t|].
  change (String c s +:+ t) with (String c (s +:+ t)).
  cbn [String.length String.substring]. by rewrite IH.
Qed.

(** [dropCR] removes the carriage return that ends a line. *)
Lemma dropCR_crlf l : dropCR (l +:+ carriageReturn) = l.
Proof.
  unfold dropCR, TrimSuffix, HasSuffix, carriageReturn.
  change (bytes [13%nat]) with (String "013" "").
  rewrite revString_snoc.
  change (revString (String "013" "")) with (String "013" "").
  rewrite HasPrefix_byte, bool_decide_eq_true_2 by done.
  rewrite length_append. cbn [String.length].
  replace (String.length l + 1 - 1)%nat with (String.length l) by lia.
  apply substring_front.
Qed.

Lemma dropCR_plain l : HasSuffix l carriageReturn = false → dropCR l = l.
Proof. intros Hs. unfold dropCR, TrimSuffix. by rewrite Hs. Qed.

(** X5. A text with [CR LF] line ends is parsed exactly as the same text
    with [LF] line ends: the scanner drops the carriage return before the
    line loop sees the line. *)
Theorem crlf_text_parses_alike os ls :
  Forall (λ l, Contains l newline = false) ls →
  Forall (λ l, HasSuffix l carriageReturn = false) ls →
  Forall (λ l, len l + 1 < MaxScanTokenSize) ls →
  parse os (unlinesCRLF ls) = parse os (unlines ls)
  ∧ parse os (unlines ls) = processLines os initial ls.
Proof.
  intros Hnl Hcr Hlen.
  assert (Forall (λ l, Contains l newline = false)
                 (List.map (λ l, l +:+ carriageReturn) ls)) as Hnl'.
  { apply Forall_map. eapply Forall_impl; [exact Hnl|]. intros l Hl. cbn beta.
    unfold carriageReturn, newline in *.
    change (bytes [13%nat]) with (String "013" "").
    change (bytes [10%nat]) with (String "010" "") in *.
    by apply Contains_byte_snoc. }
  assert (tokens (List.map (λ l, l +:+ carriageReturn) ls) = ls
          ∧ failed (List.map (λ l, l +:+ carriageReturn) ls) = false) as [Ht1 Hf1].
  { clear -Hlen. induction Hlen as [|l ls Hl _ [IH1 IH2]]; [done|].
    unfold failed in *. cbn [List.map tokens existsb].
    assert (tooLong (l +:+ carriageReturn) = false) as ->.
    { unfold tooLong, len in *. rewrite length_append. apply Z.leb_gt.
      change (String.length carriageReturn) with 1%nat. lia. }
    by rewrite dropCR_crlf, IH1, IH2. }
  assert (tokens ls = ls ∧ failed ls = false) as [Ht2 Hf2].
  { clear -Hlen Hcr. induction Hlen as [|l ls Hl _ IH]; [done|].
    inversion Hcr as [|? ? Hcrl Hcrs]; subst. destruct (IH Hcrs) as [IH1 IH2].
    unfold failed in *. cbn [tokens existsb].
    assert (tooLong l = false) as ->.
    { unfold tooLong. apply Z.leb_gt. lia. }
    by rewrite dropCR_plain, IH1, IH2. }
  unfold parse, unlinesCRLF.
  rewrite !rawLines_unlines by done. rewrite Ht1, Hf1, Ht2, Hf2.
  split; [done|]. by destruct (processLines os initial ls).
Qed.

Lemma crlf_text_parses_alike_witness :
  Forall (λ l, Contains l newline = false) ["3 1 src/app.go"; ""; "1 1 b"]
  ∧ Forall (λ l, HasSuffix l carriageReturn = false) ["3 1 src/app.go"; ""; "1 1 b"]
  ∧ Forall (λ l, len l + 1 < MaxScanTokenSize) ["3 1 src/app.go"; ""; "1 1 b"]
  ∧ parse Unix (unlinesCRLF ["3 1 src/app.go"; ""; "1 1 b"])
    = parse Unix (unlines ["3 1 src/app.go"; ""; "1 1 b"]).
Proof.
  assert (Forall (λ l, Contains l newline = false) ["3 1 src/app.go"; ""; "1 1 b"]) as H1
    by (repeat constructor).
  assert (Forall (λ l, HasSuffix l carriageReturn = false) ["3 1 src/app.go"; ""; "1 1 b"])
    as H2 by (repeat constructor).
  assert (Forall (λ l, len l + 1 < MaxScanTokenSize) ["3 1 src/app.go"; ""; "1 1 b"])
    as H3 by (repeat constructor; vm_compute; reflexivity).
  split; [exact H1|]. split; [exact H2|]. split; [exact H3|].
  exact (proj1 (crlf_text_parses_alike Unix _ H1 H2 H3)).
Defined.

End ScannerExtras.

(** ** The line loop on a text *)

Module ScannedText.
Import GoStrings GoStringsFacts GoFilepath GoScanner Parser ParserFacts ParserSpec.
Import TreeSpec ScannerSpec ScannerExtras.

(** The lines before the first over-long one are all delivered. *)
Lemma tokens_app_short before rest :
  Forall (λ l, tooLong l = false) before →
  tokens (before ++ rest) = List.map dropCR before ++ tokens rest.
Proof.
  induction 1 as [|l before Hl _ IH]; cbn [app tokens List.map]; [done|].
  by rewrite Hl, IH.
Qed.

Lemma failed_app_short before rest :
  Forall (λ l, tooLong l = false) before → failed (before ++ rest) = failed rest.
Proof.
  unfold failed. induction 1 as [|l before Hl _ IH]; cbn [app existsb]; [done|].
  by rewrite Hl, IH.
Qed.

Lemma failed_short ls : Forall (λ l, tooLong l = false) ls → failed ls = false.
Proof.
  intros Hs. rewrite <- (app_nil_r ls). by rewrite failed_app_short.
Qed.

(** The loop only ever adds warnings. *)
Lemma processLine_warnings os st line st' :
  processLine os st line = Some st' → ∃ ws, warnings st' = warnings st ++ ws.
Proof.
  unfold processLine. destruct (String.eqb line "").
  { intros [= <-]. exists []. by rewrite app_nil_r. }
  destruct (splitLine line) as [[w|[[a d] f]]|]; cbn [mbind option_bind];
    [|destruct (negb _)|discriminate]; intros [= <-]; cbn [warnings warn bump countLine].
  - by exists [w].
  - exists []. by rewrite app_nil_r.
  - exists []. by rewrite app_nil_r.
Qed.

Lemma processLines_warnings os lines : ∀ st st',
  processLines os st lines = Some st' → ∃ ws, warnings st' = warnings st ++ ws.
Proof.
  induction lines as [|line lines IH]; intros st st'; cbn [processLines].
  { intros [= <-]. exists []. by rewrite app_nil_r. }
  destruct (processLine os st line) as [st1|] eqn:H1; cbn [mbind option_bind];
    [|discriminate].
  intros Hrest. destruct (processLine_warnings _ _ _ _ H1) as [ws1 Hw1].
  destruct (IH _ _ Hrest) as [ws2 Hw2].
  exists (ws1 ++ ws2). by rewrite Hw2, Hw1, app_assoc.
Qed.

(** C4, amended. A line that the scanner delivers (the line and the lines
    before it are shorter than 64 KiB) and that, without its trailing
    carriage return, is not empty, has fewer than three fields and holds no
    [=>] is never accepted: the pass goes on to the end of the text, logs
    the warning for malformed lines, and ends with the same
    [fileChangeCounts] as on the text without the line. *)
Theorem malformed_line_is_skipped os output output' before line after :
  rawLines output = before ++ line :: after →
  rawLines output' = before ++ after →
  Forall (λ l, tooLong l = false) before →
  tooLong line = false →
  dropCR line ≠ "" →
  (length (Fields (dropCR line)) < 3)%nat →
  Contains (dropCR line) "=>" = false →
  accepted os (dropCR line) = None
  ∧ ∃ st st',
      parse os output = Some st
      ∧ parse os output' = Some st'
      ∧ fileChangeCounts st = fileChangeCounts st'
      ∧ WarnMalformed (dropCR line) ∈ warnings st.
Proof.
  intros Hout Hout' Hbefore Hline Hne Hlen Harrow.
  destruct (ParserClaims.malformed_token_is_skipped os (dropCR line) Hne Hlen Harrow)
    as (Hstep & Hacc & _).
  split; [exact Hacc|].
  unfold parse. rewrite Hout, Hout'.
  rewrite !tokens_app_short by done. cbn [tokens]. rewrite Hline.
  rewrite !failed_app_short by done. unfold failed at 1. cbn [existsb].
  rewrite Hline. cbn [orb]. fold (failed after).
  rewrite !processLines_app.
  destruct (processLines_total os (List.map dropCR before) initial) as [s0 ->].
  cbn [mbind option_bind processLines]. rewrite Hstep. cbn [mbind option_bind].
  destruct (ParserClaims.processLines_counts_only os (tokens after)
              (warn (WarnMalformed (dropCR line)) (countLine s0)) s0 eq_refl)
    as (s1 & s2 & Hs1 & Hs2 & Heq).
  rewrite Hs1, Hs2. cbn [mbind option_bind].
  do 2 eexists. split; [done|]. split; [done|]. split.
  - destruct (failed after); cbn [warn fileChangeCounts]; exact Heq.
  - destruct (processLines_warnings _ _ _ _ Hs1) as [ws Hws].
    assert (WarnMalformed (dropCR line) ∈ warnings s1) as Hin.
    { rewrite Hws. cbn [warnings warn countLine].
      apply elem_of_app. left. apply elem_of_app. right. by apply list_elem_of_singleton. }
    destruct (failed after); cbn [warn warnings]; [|done].
    apply elem_of_app. by left.
Qed.

Lemma malformed_line_is_skipped_witness :
  rawLines (unlines ["1 0 a"; "garbage text"; "1 1 b"]) = ["1 0 a"] ++ "garbage text" :: ["1 1 b"]
  ∧ rawLines (unlines ["1 0 a"; "1 1 b"]) = ["1 0 a"] ++ ["1 1 b"]
  ∧ Forall (λ l, tooLong l = false) ["1 0 a"]
  ∧ tooLong "garbage text" = false
  ∧ dropCR "garbage text" ≠ ""
  ∧ (length (Fields (dropCR "garbage text")) < 3)%nat
  ∧ Contains (dropCR "garbage text") "=>" = false
  ∧ accepted Unix (dropCR "garbage text") = None
  ∧ ∃ st st',
      parse Unix (unlines ["1 0 a"; "garbage text"; "1 1 b"]) = Some st
      ∧ parse Unix (unlines ["1 0 a"; "1 1 b"]) = Some st'
      ∧ fileChangeCounts st = fileChangeCounts st'
      ∧ WarnMalformed (dropCR "garbage text") ∈ warnings st.
Proof.
  assert (rawLines (unlines ["1 0 a"; "garbage text"; "1 1 b"])
          = ["1 0 a"] ++ "garbage text" :: ["1 1 b"]) as H1 by reflexivity.
  assert (rawLines (unlines ["1 0 a"; "1 1 b"]) = ["1 0 a"] ++ ["1 1 b"]) as H2
    by reflexivity.
  assert (Forall (λ l, tooLong l = false) ["1 0 a"]) as H3 by (by repeat constructor).
  assert (tooLong "garbage text" = false) as H4 by reflexivity.
  assert (dropCR "garbage text" ≠ "") as H5 by (vm_compute; discriminate).
  assert ((length (Fields (dropCR "garbage text")) < 3)%nat) as H6 by (vm_compute; lia).
  assert (Contains (dropCR "garbage text") "=>" = false) as H7 by reflexivity.
  split; [exact H1|]. split; [exact H2|]. split; [exact H3|]. split; [exact H4|].
  split; [exact H5|]. split; [exact H6|]. split; [exact H7|].
  exact (malformed_line_is_skipped Unix _ _ _ _ _ H1 H2 H3 H4 H5 H6 H7).
Defined.

(** X2. In a text whose lines are all shorter than 64 KiB the weight map
    does not depend on the order of the lines: a text with the same lines
    in another order gives the same [fileChangeCounts]. *)
Theorem counts_ignore_line_order os output output' :
  Forall (λ l, tooLong l = false) (rawLines output) →
  Permutation (rawLines output) (rawLines output') →
  fileChangeCounts <$> parse os output = fileChangeCounts <$> parse os output'.
Proof.
  intros Hshort Hperm.
  assert (Forall (λ l, tooLong l = false) (rawLines output')) as Hshort'.
  { rewrite Forall_forall in *. intros l Hl. apply Hshort.
    apply list_elem_of_In. apply list_elem_of_In in Hl.
    eapply Permutation_in; [symmetry; exact Hperm|exact Hl]. }
  unfold parse. rewrite !tokens_short, !failed_short by done.
  pose proof (ParserExtras.counts_ignore_token_order os
                (List.map dropCR (rawLines output)) (List.map dropCR (rawLines output'))
                (Permutation_map dropCR Hperm)) as Heq.
  destruct (processLines os initial (List.map dropCR (rawLines output))) as [s1|];
    destruct (processLines os initial (List.map dropCR (rawLines output'))) as [s2|];
    cbn in *; congruence.
Qed.

Lemma counts_ignore_line_order_witness :
  Forall (λ l, tooLong l = false)
         (rawLines (unlines ["1 0 a"; "garbage"; "2 2 b"; "1 1 a"]))
  ∧ Permutation (rawLines (unlines ["1 0 a"; "garbage"; "2 2 b"; "1 1 a"]))
                (rawLines (unlines ["2 2 b"; "1 0 a"; "1 1 a"; "garbage"]))
  ∧ fileChangeCounts <$> parse Unix (unlines ["1 0 a"; "garbage"; "2 2 b"; "1 1 a"])
    = fileChangeCounts <$> parse Unix (unlines ["2 2 b"; "1 0 a"; "1 1 a"; "garbage"]).
Proof.
  assert (Forall (λ l, tooLong l = false)
                 (rawLines (unlines ["1 0 a"; "garbage"; "2 2 b"; "1 1 a"]))) as Hs.
  { change (rawLines (unlines ["1 0 a"; "garbage"; "2 2 b"; "1 1 a"]))
      with ["1 0 a"; "garbage"; "2 2 b"; "1 1 a"].
    by repeat constructor. }
  assert (Permutation (rawLines (unlines ["1 0 a"; "garbage"; "2 2 b"; "1 1 a"]))
                      (rawLines (unlines ["2 2 b"; "1 0 a"; "1 1 a"; "garbage"]))) as Hp.
  { change (rawLines (unlines ["1 0 a"; "garbage"; "2 2 b"; "1 1 a"]))
      with ["1 0 a"; "garbage"; "2 2 b"; "1 1 a"].
    change (rawLines (unlines ["2 2 b"; "1 0 a"; "1 1 a"; "garbage"]))
      with ["2 2 b"; "1 0 a"; "1 1 a"; "garbage"].
    apply (Permutation_trans (l' := ["1 0 a"; "2 2 b"; "garbage"; "1 1 a"])).
    - apply perm_skip, perm_swap.
    - apply (Permutation_trans (l' := ["2 2 b"; "1 0 a"; "garbage"; "1 1 a"])).
      + apply perm_swap.
      + do 2 apply perm_skip. apply perm_swap. }
  split; [exact Hs|]. split; [exact Hp|].
  exact (counts_ignore_line_order Unix _ _ Hs Hp).
Defined.

(** X3. On every text, with [delivered] the lines that the scanner hands
    to the loop (those before the first line of 64 KiB or more, each
    without its trailing carriage return; at most [max_int] of them): every
    recorded weight is at least 1, the weights add up to the number of
    accepted delivered lines, and [processedLines] is the number of
    delivered lines that are not empty. *)
Theorem weights_account_for_accepted_lines os output :
  let delivered := tokens (rawLines output) in
  Z.of_nat (length delivered) ≤ GoInt.max_int →
  ∃ st, parse os output = Some st
        ∧ (∀ p v, fileChangeCounts st !! p = Some v → 1 ≤ v)
        ∧ weightSum (map_to_list (fileChangeCounts st))
          = Z.of_nat (acceptedCount os delivered)
        ∧ processedLines st = Z.of_nat (nonEmptyCount delivered).
Proof.
  intros delivered Hmax.
  destruct (ParserExtras.weights_account_for_tokens os delivered Hmax)
    as (st & Hst & Hpos & Hsum & Hcnt).
  unfold parse. fold delivered. rewrite Hst. cbn [mbind option_bind].
  eexists. split; [done|].
  destruct (failed (rawLines output)); cbn [warn fileChangeCounts processedLines]; done.
Qed.

Lemma weights_account_for_accepted_lines_witness :
  tokens (rawLines (unlines ["1 0 a"; ""; carriageReturn; "garbage"; "2 2 b"]))
  = ["1 0 a"; ""; ""; "garbage"; "2 2 b"]
  ∧ Z.of_nat (length ["1 0 a"; ""; ""; "garbage"; "2 2 b"]) ≤ GoInt.max_int
  ∧ acceptedCount Unix ["1 0 a"; ""; ""; "garbage"; "2 2 b"] = 2%nat
  ∧ nonEmptyCount ["1 0 a"; ""; ""; "garbage"; "2 2 b"] = 3%nat
  ∧ ∃ st, parse Unix (unlines ["1 0 a"; ""; carriageReturn; "garbage"; "2 2 b"]) = Some st
          ∧ weightSum (map_to_list (fileChangeCounts st)) = 2
          ∧ processedLines st = 3.
Proof.
  assert (tokens (rawLines (unlines ["1 0 a"; ""; carriageReturn; "garbage"; "2 2 b"]))
          = ["1 0 a"; ""; ""; "garbage"; "2 2 b"]) as Ht by (by vm_compute).
  assert (Z.of_nat (length ["1 0 a"; ""; ""; "garbage"; "2 2 b"]) ≤ GoInt.max_int)
    as Hmax by (vm_compute; discriminate).
  split; [exact Ht|]. split; [exact Hmax|]. split; [reflexivity|]. split; [reflexivity|].
  pose proof (weights_account_for_accepted_lines Unix
                (unlines ["1 0 a"; ""; carriageReturn; "garbage"; "2 2 b"])) as Hthm.
  cbv zeta in Hthm. rewrite Ht in Hthm.
  destruct (Hthm Hmax) as (st & Hst & _ & Hsum & Hcnt).
  exists st. split; [exact Hst|]. split; [exact Hsum|exact Hcnt].
Defined.

End ScannedText.

(** ** Aggregation *)

Module AggregateExtras.
Import GoStrings Tree TreeSpec TreeSpec2 TreeFacts Samples RuntimesFacts.

Lemma aggregateCounts_fst `{Runtime} n :
  IsFile n = false →
  fst (aggregateCounts n) =
  mkNode (Name n) (Path n) (snd (aggregateCounts n)) false
         (List.map (λ kc : string * Node, (fst kc, fst (aggregateCounts (snd kc))))
                   (Children n)).
Proof.
  intros Hf. pose proof (aggregateCounts_unfold n) as Hu.
  rewrite Hf in Hu. cbv zeta in Hu. rewrite Hu. cbn [fst snd].
  f_equal. rewrite List.map_map. apply List.map_ext. by intros [k c].
Qed.

Lemma pair_eta {A B} (p : A * B) : p = (fst p, snd p).
Proof. by destruct p. Qed.

(** X6. The result of aggregation does not depend on the order in which
    [range] visits the children: any two executions return the same tree
    and the same value, on every tree. *)
Theorem aggregation_ignores_range_order (rt1 rt2 : Runtime) :
  ∀ n, @aggregateCounts rt1 n = @aggregateCounts rt2 n.
Proof.
  induction n as [name path value isFile children IH] using Node_induction.
  set (n := mkNode name path value isFile children) in *.
  destruct isFile eqn:Hfile.
  - by rewrite !aggregateCounts_unfold.
  - assert (List.map (λ kc : string * Node, snd (@aggregateCounts rt1 (snd kc))) children
            = List.map (λ kc : string * Node, snd (@aggregateCounts rt2 (snd kc))) children)
      as Hvals.
    { apply List.map_ext_Forall. eapply Forall_impl; [exact IH|].
      intros kc Hkc. cbn beta in *. by rewrite Hkc. }
    assert (List.map (λ kc : string * Node, (fst kc, fst (@aggregateCounts rt1 (snd kc))))
                     children
            = List.map (λ kc : string * Node, (fst kc, fst (@aggregateCounts rt2 (snd kc))))
                       children) as Hnodes.
    { apply List.map_ext_Forall. eapply Forall_impl; [exact IH|].
      intros kc Hkc. cbn beta in *. by rewrite Hkc. }
    assert (snd (@aggregateCounts rt1 n) = snd (@aggregateCounts rt2 n)) as Hsnd.
    { rewrite !aggregateCounts_sum by done. cbn [Children n]. by rewrite Hvals. }
    rewrite (pair_eta (@aggregateCounts rt1 n)), (pair_eta (@aggregateCounts rt2 n)).
    rewrite !aggregateCounts_fst by done. cbn [Children n]. by rewrite Hsnd, Hnodes.
Qed.

(** What a call on a directory returns, in one piece. *)
Lemma aggregateCounts_dir `{Runtime} n :
  IsFile n = false →
  aggregateCounts n =
  (mkNode (Name n) (Path n)
          (GoInt.wrap (sumZ (List.map (λ kc : string * Node,
                                         snd (aggregateCounts (snd kc))) (Children n))))
          false
          (List.map (λ kc : string * Node, (fst kc, fst (aggregateCounts (snd kc))))
                    (Children n)),
   GoInt.wrap (sumZ (List.map (λ kc : string * Node,
                                 snd (aggregateCounts (snd kc))) (Children n)))).
Proof.
  intros Hf. rewrite (pair_eta (aggregateCounts n)).
  by rewrite aggregateCounts_fst, aggregateCounts_sum.
Qed.

(** X7. Aggregating an aggregated tree changes nothing: it returns the
    same tree and the same value again. *)
Theorem aggregation_is_idempotent `{Runtime} :
  ∀ n, aggregateCounts (fst (aggregateCounts n)) = aggregateCounts n.
Proof.
  induction n as [name path value isFile children IH] using Node_induction.
  set (n := mkNode name path value isFile children) in *.
  destruct isFile eqn:Hfile.
  - by rewrite !aggregateCounts_unfold.
  - rewrite (aggregateCounts_dir n) by done. cbn [fst].
    rewrite aggregateCounts_dir by done. cbn [Name Path Children n].
    rewrite !List.map_map. cbn [fst snd].
    assert (List.map (λ kc : string * Node,
                        snd (aggregateCounts (fst (aggregateCounts (snd kc))))) children
            = List.map (λ kc : string * Node, snd (aggregateCounts (snd kc))) children)
      as ->.
    { apply List.map_ext_Forall. eapply Forall_impl; [exact IH|].
      intros kc Hkc. cbn beta in *. by rewrite Hkc. }
    assert (List.map (λ kc : string * Node,
                        (fst kc, fst (aggregateCounts (fst (aggregateCounts (snd kc))))))
                     children
            = List.map (λ kc : string * Node, (fst kc, fst (aggregateCounts (snd kc))))
                       children) as ->.
    { apply List.map_ext_Forall. eapply Forall_impl; [exact IH|].
      intros kc Hkc. cbn beta in *. by rewrite Hkc. }
    done.
Qed.

Lemma skeleton_unfold n :
  skeleton n =
  mkNode (Name n) (Path n) (if IsFile n then Value n else 0) (IsFile n)
         (List.map (λ kc : string * Node, (fst kc, skeleton (snd kc))) (Children n)).
Proof.
  destruct n as [name path value isFile children]. cbn [skeleton Name Path Value IsFile Children].
  f_equal. apply List.map_ext. by intros [k c].
Qed.

(** X8. Aggregation restructures nothing: names, paths, kinds, the keys of
    every [Children] map and the values of the files are as before; only
    the values of directories are written. *)
Theorem aggregation_keeps_the_skeleton `{Runtime} :
  ∀ n, skeleton (fst (aggregateCounts n)) = skeleton n.
Proof.
  induction n as [name path value isFile children IH] using Node_induction.
  set (n := mkNode name path value isFile children) in *.
  destruct isFile eqn:Hfile.
  - by rewrite aggregateCounts_unfold.
  - rewrite aggregateCounts_fst by done.
    rewrite skeleton_unfold, (skeleton_unfold n).
    cbn [Name Path Value IsFile Children n]. f_equal.
    rewrite List.map_map. apply List.map_ext_Forall.
    eapply Forall_impl; [exact IH|]. intros kc Hkc. cbn beta in *. cbn [fst snd].
    by rewrite Hkc.
Qed.

End AggregateExtras.

(** ** The export of an analysed tree *)

Module ExportExtras.
Import GoStrings Tree TreeSpec TreeSpec2 TreeFacts ChildrenFacts Exporter.
Import ExportClaims AggregateExtras Samples RuntimesFacts.

Lemma keyed_skeleton : ∀ n, keyed (skeleton n) ↔ keyed n.
Proof.
  induction n as [name path value isFile children IH] using Node_induction.
  rewrite skeleton_unfold, !keyed_unfold. cbn [Name Path Value IsFile Children].
  rewrite List.map_map. cbn [fst].
  assert (Forall (λ kc : string * Node, Name (snd kc) = fst kc)
                 (List.map (λ kc : string * Node, (fst kc, skeleton (snd kc))) children)
          ↔ Forall (λ kc : string * Node, Name (snd kc) = fst kc) children) as ->.
  { rewrite Forall_map. apply Forall_iff. intros [k c]. cbn [fst snd].
    by rewrite skeleton_unfold. }
  assert (Forall (λ kc : string * Node, keyed (snd kc))
                 (List.map (λ kc : string * Node, (fst kc, skeleton (snd kc))) children)
          ↔ Forall (λ kc : string * Node, keyed (snd kc)) children) as ->.
  { rewrite Forall_map. clear -IH.
    induction IH as [|kc cs Hkc _ IHcs]; [done|].
    rewrite !Forall_cons. cbn [snd]. by rewrite Hkc, IHcs. }
  done.
Qed.

(** Aggregation keeps [Children] a map at every node. *)
Lemma aggregateCounts_keyed `{Runtime} n : keyed n → keyed (fst (aggregateCounts n)).
Proof.
  intros Hk. apply keyed_skeleton. rewrite aggregation_keeps_the_skeleton.
  by apply keyed_skeleton.
Qed.

Lemma ToJSONNode_name `{Runtime} n : jName (ToJSONNode n) = Name n.
Proof. by rewrite ToJSONNode_unfold. Qed.

Lemma ToJSONNode_value `{Runtime} n : jValue (ToJSONNode n) = Value n.
Proof. by rewrite ToJSONNode_unfold. Qed.

Lemma NoDup_filter_keys (cs : list (string * Node)) (f : string * Node → bool) :
  NoDup (List.map fst cs) → NoDup (List.map fst (List.filter f cs)).
Proof.
  induction cs as [|kc cs IH]; cbn [List.map List.filter]; [done|].
  intros [Hnotin Hnd]%NoDup_cons. specialize (IH Hnd).
  destruct (f kc); [|done]. cbn [List.map]. apply NoDup_cons. split; [|done].
  intros Hin. apply Hnotin.
  apply list_elem_of_fmap in Hin as (kc' & -> & Hin').
  apply list_elem_of_fmap. exists kc'. split; [done|].
  apply list_elem_of_In. apply list_elem_of_In, List.filter_In in Hin' as [? _]. done.
Qed.

(** In the export of a tree whose [Children] lists are maps, no two
    children of an exported node have the same name. *)
Lemma exported_names_distinct `{Runtime} :
  ∀ n, keyed n →
  ∀ j, j ∈ exported (ToJSONNode n) → NoDup (List.map jName (childList j)).
Proof.
  induction n as [name path value isFile children IH] using Node_induction.
  intros Hk j. set (n := mkNode name path value isFile children) in *.
  apply keyed_unfold in Hk as Hk'. destruct Hk' as [[Hnd Hnames] Hcs].
  cbn [Children n] in *.
  rewrite exported_unfold. intros [->|Hj]%elem_of_cons.
  - rewrite (childList_perm n), List.map_map. cbn [Children n].
    assert (List.map (λ kc : string * Node, jName (ToJSONNode (snd kc)))
                     (List.filter qualifies children)
            = List.map fst (List.filter qualifies children)) as ->.
    { apply List.map_ext_in. intros kc [Hin _]%List.filter_In.
      rewrite ToJSONNode_name. rewrite Forall_forall in Hnames.
      apply Hnames. by apply list_elem_of_In. }
    by apply NoDup_filter_keys.
  - apply list_elem_of_In, in_flat_map in Hj as (c & Hc & Hj).
    apply list_elem_of_In in Hc, Hj.
    rewrite (childList_perm n) in Hc.
    apply list_elem_of_fmap in Hc as (kc & -> & Hkc).
    apply list_elem_of_In, List.filter_In in Hkc as [Hkc _].
    rewrite Forall_forall in IH, Hcs.
    apply (IH kc); [by apply list_elem_of_In| |done].
    apply Hcs. by apply list_elem_of_In.
Qed.

(** X9. In every built tree, before and after aggregation, each
    [Children] map holds every child under the name of the child and no
    name twice; and in the export of the aggregated tree no two children
    of a node have the same name. *)
Theorem sibling_names_are_distinct `{Runtime} (Join : string → string → string)
        name entries :
  keyed (buildTree Join name entries)
  ∧ keyed (fst (aggregateCounts (buildTree Join name entries)))
  ∧ ∀ j, j ∈ exported (ToJSONNode (fst (aggregateCounts (buildTree Join name entries)))) →
         NoDup (List.map jName (childList j)).
Proof.
  pose proof (buildTree_keyed Join name entries) as Hk.
  split; [exact Hk|]. split; [by apply aggregateCounts_keyed|].
  by apply exported_names_distinct, aggregateCounts_keyed.
Qed.

Lemma sibling_names_are_distinct_witness :
  NoDup (List.map jName
           (childList (@ToJSONNode stable
                         (fst (@aggregateCounts stable (buildTree join "repo" threeFiles)))))).
Proof.
  apply (proj2 (proj2 (@sibling_names_are_distinct stable join "repo" threeFiles))).
  rewrite exported_unfold. left.
Defined.

(** X10. Nothing of value 0 is exported below the root: every exported
    node other than the root has a positive value. *)
Theorem exported_nodes_are_positive `{Runtime} :
  ∀ n j, j ∈ exported (ToJSONNode n) → j = ToJSONNode n ∨ jValue j > 0.
Proof.
  induction n as [name path value isFile children IH] using Node_induction.
  intros j. set (n := mkNode name path value isFile children) in *.
  rewrite exported_unfold. intros [->|Hj]%elem_of_cons; [by left|right].
  apply list_elem_of_In, in_flat_map in Hj as (c & Hc & Hj).
  apply list_elem_of_In in Hc, Hj.
  rewrite (childList_perm n) in Hc.
  apply list_elem_of_fmap in Hc as (kc & -> & Hkc).
  apply list_elem_of_In, List.filter_In in Hkc as [Hkc Hq].
  unfold qualifies in Hq. apply Z.gtb_lt in Hq.
  rewrite Forall_forall in IH.
  destruct (IH kc (proj2 (list_elem_of_In _ _) Hkc) j Hj) as [->|Hpos]; [|done].
  rewrite ToJSONNode_value. lia.
Qed.

Lemma exported_nodes_are_positive_witness :
  mkJSONNode "b.go" 1 None
  ∈ exported (@ToJSONNode stable
                (fst (@aggregateCounts stable (buildTree join "repo" threeFiles))))
  ∧ (mkJSONNode "b.go" 1 None
     = @ToJSONNode stable (fst (@aggregateCounts stable (buildTree join "repo" threeFiles)))
     ∨ jValue (mkJSONNode "b.go" 1 None) > 0).
Proof.
  assert (mkJSONNode "b.go" 1 None
          ∈ exported (@ToJSONNode stable
                        (fst (@aggregateCounts stable (buildTree join "repo" threeFiles)))))
    as Hin.
  { apply list_elem_of_In. vm_compute. tauto. }
  split; [exact Hin|].
  exact (@exported_nodes_are_positive stable _ _ Hin).
Defined.

Lemma sumZ_qualifying (cs : list (string * Node)) :
  Forall (λ kc : string * Node, 0 ≤ Value (snd kc)) cs →
  sumZ (List.map (λ kc : string * Node, Value (snd kc)) (List.filter qualifies cs))
  = sumZ (List.map (λ kc : string * Node, Value (snd kc)) cs).
Proof.
  induction 1 as [|kc cs Hkc _ IH]; [done|].
  cbn [List.filter List.map]. unfold qualifies at 1.
  destruct (Value (snd kc) >? 0) eqn:Hq; cbn [List.map]; rewrite !sumZ_cons, IH.
  - done.
  - rewrite Z.gtb_ltb, Z.ltb_ge in Hq. lia.
Qed.

(** A conserved tree whose files hold non-negative values holds no
    negative value at all. *)
Lemma conserved_nonNegative : ∀ n,
  wellFormed n → conserved n → Forall (λ f, 0 ≤ Value f) (files n) → nonNegative n.
Proof.
  induction n as [name path value isFile children IH] using Node_induction.
  intros Hwf Hcons Hfiles. set (n := mkNode name path value isFile children) in *.
  apply wellFormed_unfold in Hwf as [Hnil Hwfs].
  unfold conserved in Hcons. apply Forall_nodes in Hcons as [Hroot Hconss].
  rewrite files_unfold in Hfiles. apply Forall_app in Hfiles as [Hself Hbelow].
  cbn [Children IsFile Value n] in *.
  assert (Forall (λ kc : string * Node, nonNegative (snd kc)) children) as Hnn.
  { rewrite Forall_forall in IH, Hwfs, Hconss. apply Forall_forall. intros kc Hkc.
    apply IH; [done|by apply Hwfs|by apply Hconss|].
    rewrite Forall_forall in Hbelow. apply Forall_forall. intros f Hf.
    apply Hbelow. apply list_elem_of_In, in_flat_map. exists kc.
    split; by apply list_elem_of_In. }
  apply nonNegative_unfold. cbn [Children Value n]. split; [|done].
  destruct isFile.
  - by inversion Hself.
  - rewrite (Hroot eq_refl). unfold childValues. cbn [Children n].
    apply sumZ_nonneg, Forall_map. eapply Forall_impl; [exact Hnn|].
    intros kc [Hv _]%nonNegative_unfold. exact Hv.
Qed.

Lemma exported_adds_up `{Runtime} : ∀ n,
  wellFormed n → conserved n → nonNegative n →
  ∀ j, j ∈ exported (ToJSONNode n) → childList j ≠ [] →
       jValue j = sumZ (List.map jValue (childList j)).
Proof.
  induction n as [name path value isFile children IH] using Node_induction.
  intros Hwf Hcons Hnn j. set (n := mkNode name path value isFile children) in *.
  apply wellFormed_unfold in Hwf as Hwf'. destruct Hwf' as [Hnil Hwfs].
  unfold conserved in Hcons. apply Forall_nodes in Hcons as Hcons'.
  destruct Hcons' as [Hroot Hconss].
  apply nonNegative_unfold in Hnn as Hnn'. destruct Hnn' as [_ Hnns].
  cbn [Children IsFile Value n] in *.
  rewrite exported_unfold. intros [->|Hj]%elem_of_cons.
  - intros Hne. rewrite ToJSONNode_value.
    rewrite (sumZ_perm _ _ (Permutation_map jValue (childList_perm n))).
    rewrite List.map_map. cbn [Children Value n].
    rewrite (List.map_ext _ (λ kc : string * Node, Value (snd kc)))
      by (intros kc; apply ToJSONNode_value).
    rewrite sumZ_qualifying.
    + destruct isFile; [|by apply Hroot].
      destruct Hne. specialize (Hnil eq_refl). subst children.
      pose proof (childList_perm n) as Hp. cbn [Children n List.filter List.map] in Hp.
      by apply Permutation_nil_r in Hp.
    + eapply Forall_impl; [exact Hnns|]. intros kc [Hv _]%nonNegative_unfold. exact Hv.
  - apply list_elem_of_In, in_flat_map in Hj as (c & Hc & Hj).
    apply list_elem_of_In in Hc, Hj.
    rewrite (childList_perm n) in Hc.
    apply list_elem_of_fmap in Hc as (kc & -> & Hkc).
    apply list_elem_of_In, List.filter_In in Hkc as [Hkc _].
    apply list_elem_of_In in Hkc.
    rewrite Forall_forall in IH, Hwfs, Hconss, Hnns.
    apply (IH kc Hkc); [by apply Hwfs|by apply Hconss|by apply Hnns|done].
Qed.

(** X11. The export of an analysed tree still adds up: every exported
    node that has children holds exactly the sum of the values of its
    exported children, because what the export leaves out has value 0. *)
Theorem export_adds_up `{Runtime} (Join : string → string → string) name entries :
  Forall (λ e : string * Z, 0 ≤ snd e) entries →
  weightSum entries ≤ GoInt.max_int →
  ∀ j, j ∈ exported (ToJSONNode (fst (aggregateCounts (buildTree Join name entries)))) →
       childList j ≠ [] →
       jValue j = sumZ (List.map jValue (childList j)).
Proof.
  intros Hw Hmax.
  pose proof (buildTree_wellFormed Join name entries) as Hwf.
  destruct (buildTree_bounds Join name entries Hw) as [Hnn Htot].
  pose proof (leafSum_le_totalValue _ Hnn) as Hleaf.
  destruct (aggregateCounts_exact (buildTree Join name entries) Hwf
              (TreeClaims.nonNegative_files _ Hnn)) as (_ & Hcons & Hsame & Hwf'); [lia|].
  apply exported_adds_up; [done|done|].
  apply conserved_nonNegative; [done|done|].
  rewrite Hsame. by apply TreeClaims.nonNegative_files.
Qed.

Lemma export_adds_up_witness :
  Forall (λ e : string * Z, 0 ≤ snd e) threeFiles
  ∧ weightSum threeFiles ≤ GoInt.max_int
  ∧ childList (@ToJSONNode stable
                 (fst (@aggregateCounts stable (buildTree join "repo" threeFiles)))) ≠ []
  ∧ jValue (@ToJSONNode stable
              (fst (@aggregateCounts stable (buildTree join "repo" threeFiles))))
    = sumZ (List.map jValue
              (childList (@ToJSONNode stable
                            (fst (@aggregateCounts stable (buildTree join "repo" threeFiles)))))).
Proof.
  assert (Forall (λ e : string * Z, 0 ≤ snd e) threeFiles) as Hw
    by (repeat constructor; cbn; lia).
  assert (weightSum threeFiles ≤ GoInt.max_int) as Hmax by (vm_compute; discriminate).
  assert (childList (@ToJSONNode stable
            (fst (@aggregateCounts stable (buildTree join "repo" threeFiles)))) ≠ [])
    as Hne by (vm_compute; discriminate).
  split; [exact Hw|]. split; [exact Hmax|]. split; [exact Hne|].
  apply (@export_adds_up stable join "repo" threeFiles Hw Hmax); [|exact Hne].
  rewrite exported_unfold. left.
Defined.

End ExportExtras.

(** ** The build loop on paths that meet *)

Module BuildExtras.
Import GoStrings Tree TreeSpec TreeSpec2 TreeFacts ChildrenFacts Samples RuntimesFacts.

Lemma updateChild_same k c cs :
  lookupChild k cs = Some c → updateChild k c cs = cs.
Proof.
  induction cs as [|[k0 c0] rest IH]; cbn [lookupChild updateChild]; [done|].
  destruct (String.eqb k0 k) eqn:Hk.
  - by intros [= ->].
  - intros Hl. by rewrite IH.
Qed.

Lemma updateChild_twice k c1 c2 cs :
  updateChild k c2 (updateChild k c1 cs) = updateChild k c2 cs.
Proof.
  induction cs as [|[k0 c0] rest IH]; cbn [updateChild]; [done|].
  destruct (String.eqb k0 k) eqn:Hk; cbn [updateChild]; rewrite Hk; [done|].
  by rewrite IH.
Qed.

Lemma Node_eta n : mkNode (Name n) (Path n) (Value n) (IsFile n) (Children n) = n.
Proof. by destruct n. Qed.

Section Collisions.
Variable Join : string → string → string.

(** Where the whole path exists already, [ensurePath] changes nothing. *)
Lemma ensurePathFrom_existing pathParts : ∀ i n currentPath current,
  is_Some (nodeAt (List.filter (λ part, negb (String.eqb part "")) pathParts) current) →
  ensurePathFrom Join i n currentPath current pathParts
  = (current, List.filter (λ part, negb (String.eqb part "")) pathParts).
Proof.
  induction pathParts as [|part rest IH]; intros i n currentPath current;
    cbn [ensurePathFrom List.filter]; [done|].
  destruct (String.eqb part ""); cbn [negb]; [by apply IH|].
  cbn [nodeAt]. destruct (lookupChild part (Children current)) as [child|] eqn:Hl;
    cbn [mbind option_bind]; [|by intros [? ?]].
  intros Hsome. rewrite (IH (i + 1) n (Join currentPath part) child Hsome).
  by rewrite (updateChild_same _ _ _ Hl), Node_eta.
Qed.

Lemma setValue_twice addr v1 v2 : ∀ n,
  setValue addr v2 (setValue addr v1 n) = setValue addr v2 n.
Proof.
  induction addr as [|k addr IH]; intros n; cbn [setValue]; [done|].
  destruct (lookupChild k (Children n)) as [c|] eqn:Hl; cbn [Children].
  - rewrite lookupChild_updateChild, String.eqb_refl, Hl.
    cbn [Name Path Value IsFile Children]. by rewrite updateChild_twice, IH.
  - by rewrite Hl.
Qed.

(** X12. When two paths of the weight map lead to the same node (they
    differ only in braces or blanks around their segments, or in empty
    segments), the weights are not added: the path visited later replaces
    the weight of the earlier one, and the tree is as if the earlier path
    had carried the later weight. *)
Theorem later_path_replaces_weight rootDir p1 w1 p2 w2 :
  address p2 = address p1 → w1 ≠ 0 → w2 ≠ 0 →
  insertEntry Join (insertEntry Join rootDir (p1, w1)) (p2, w2)
  = insertEntry Join rootDir (p1, w2).
Proof.
  intros Haddr Hw1 Hw2.
  rewrite (insertEntry_unfold Join _ p2 w2 Hw2), Haddr.
  rewrite (insertEntry_unfold Join rootDir p1 w1 Hw1).
  rewrite (insertEntry_unfold Join rootDir p1 w2 Hw2).
  set (t1 := fst (ensurePath Join rootDir (pathPartsOf p1))).
  destruct (ensurePath_nodeAt Join rootDir p1) as [d Hd]. fold t1 in Hd.
  destruct (setValue_at (address p1) w1 t1 d Hd) as (d' & Hd' & _).
  unfold ensurePath at 1.
  rewrite ensurePathFrom_existing.
  - cbn [fst]. apply setValue_twice.
  - fold (address p2). rewrite Haddr. by eexists.
Qed.

End Collisions.

Lemma later_path_replaces_weight_witness :
  address "src/a.go}" = address "src/a.go" ∧ (2 : Z) ≠ 0 ∧ (5 : Z) ≠ 0
  ∧ insertEntry join (insertEntry join (NewNode "repo" "/" false) ("src/a.go", 2))
                ("src/a.go}", 5)
    = insertEntry join (NewNode "repo" "/" false) ("src/a.go", 5).
Proof.
  split; [reflexivity|]. split; [discriminate|]. split; [discriminate|].
  apply (later_path_replaces_weight join); [reflexivity|discriminate|discriminate].
Defined.

End BuildExtras.

(** ** The build loop on paths that stay apart *)

Module SeparatedExtras.
Import GoStrings Tree TreeSpec TreeSpec2 TreeFacts ChildrenFacts Samples RuntimesFacts.

Lemma nodeAt_NewNode addr name path isFile d :
  nodeAt addr (NewNode name path isFile) = Some d →
  addr = [] ∧ d = NewNode name path isFile.
Proof. destruct addr as [|k addr]; cbn; [by intros [= <-]|discriminate]. Qed.

Lemma last_cons_cons {A} (x y : A) l d : List.last (x :: y :: l) d = List.last (y :: l) d.
Proof. done. Qed.

Lemma filter_last_nonempty (parts : list string) :
  List.last parts "" ≠ "" →
  List.filter (λ part, negb (String.eqb part "")) parts ≠ [].
Proof.
  induction parts as [|part rest IH]; [done|].
  destruct rest as [|part' rest].
  - cbn [List.last List.filter]. intros Hne%String.eqb_neq. by rewrite Hne.
  - rewrite last_cons_cons. intros Hl. specialize (IH Hl).
    cbn [List.filter] in *. by destruct (negb (String.eqb part "")).
Qed.

Lemma lookupChild_of_elem k c cs :
  NoDup (List.map fst cs) → (k, c) ∈ cs → lookupChild k cs = Some c.
Proof.
  induction cs as [|[k0 c0] rest IH]; cbn [List.map fst lookupChild].
  - intros _ Hin. by apply elem_of_nil in Hin.
  - intros [Hnotin Hnd]%NoDup_cons [Heq|Hin]%elem_of_cons.
    + injection Heq as -> ->. by rewrite String.eqb_refl.
    + destruct (String.eqb k0 k) eqn:Hk.
      * apply String.eqb_eq in Hk. subst k0. destruct Hnotin.
        apply list_elem_of_fmap. by exists (k, c).
      * by apply IH.
Qed.

(** In a tree whose [Children] lists are maps every node has an address. *)
Lemma nodes_have_addresses : ∀ n d,
  keyed n → d ∈ nodes n → ∃ addr, nodeAt addr n = Some d.
Proof.
  induction n as [name path value isFile children IH] using Node_induction.
  intros d Hk. set (n := mkNode name path value isFile children) in *.
  apply keyed_unfold in Hk as [[Hnd _] Hcs]. cbn [Children n] in *.
  rewrite nodes_unfold. intros [->|Hin]%elem_of_cons; [by exists []|].
  apply list_elem_of_In, in_flat_map in Hin as ([k c] & Hkc & Hd).
  apply list_elem_of_In in Hkc, Hd. cbn [snd] in Hd.
  rewrite Forall_forall in IH, Hcs.
  destruct (IH (k, c) Hkc d (Hcs (k, c) Hkc) Hd) as [addr Haddr].
  exists (k :: addr). cbn [nodeAt Children n].
  by rewrite (lookupChild_of_elem k c children Hnd Hkc).
Qed.

(** What [setValue] shows at any address. *)
Lemma setValue_origin a v : ∀ n addr d',
  nodeAt addr (setValue a v n) = Some d' →
  ∃ d, nodeAt addr n = Some d ∧ IsFile d' = IsFile d
       ∧ Value d' = if decide (addr = a) then v else Value d.
Proof.
  induction a as [|k a IH]; intros n addr d'; cbn [setValue].
  - destruct addr as [|k0 r]; cbn [nodeAt Children].
    + intros [= <-]. exists n. by rewrite decide_True.
    + intros Hd. exists d'. by rewrite decide_False.
  - destruct (lookupChild k (Children n)) as [c|] eqn:Hl.
    + destruct addr as [|k0 r]; cbn [nodeAt Children].
      * intros [= <-]. exists n. by rewrite decide_False.
      * rewrite lookupChild_updateChild, Hl.
        destruct (String.eqb k k0) eqn:Hk.
        -- apply String.eqb_eq in Hk. subst k0. rewrite Hl. cbn [mbind option_bind].
           intros Hd. destruct (IH c r d' Hd) as (d & Hd0 & Hf & Hv).
           exists d. split; [done|]. split; [done|]. rewrite Hv.
           destruct (decide (r = a)) as [->|Hne]; [by rewrite decide_True|].
           rewrite decide_False; [done|congruence].
        -- apply String.eqb_neq in Hk. intros Hd. exists d'.
           rewrite decide_False; [done|congruence].
    + intros Hd. exists d'. split; [done|]. split; [done|].
      rewrite decide_False; [done|]. intros ->. cbn [nodeAt] in Hd.
      by rewrite Hl in Hd.
Qed.

Section Separated.
Variable Join : string → string → string.

(** Where a node of the tree after [ensurePath] comes from: it was there
    before, with its value, and with its kind unless it was a file on the
    way; or it is new, on the way, without value, and a file only at the
    end of the way. *)
Lemma ensurePathFrom_origin pathParts : ∀ i n currentPath current addr d',
  i + Z.of_nat (length pathParts) = n →
  nodeAt addr (fst (ensurePathFrom Join i n currentPath current pathParts)) = Some d' →
  (∃ d, nodeAt addr current = Some d ∧ Value d' = Value d
        ∧ (IsFile d' = IsFile d
           ∨ (IsFile d = true
              ∧ ∃ k r, List.filter (λ part, negb (String.eqb part "")) pathParts
                       = addr ++ k :: r)))
  ∨ (nodeAt addr current = None
     ∧ addr `prefix_of` List.filter (λ part, negb (String.eqb part "")) pathParts
     ∧ Value d' = 0
     ∧ (IsFile d' = true
        → addr = List.filter (λ part, negb (String.eqb part "")) pathParts)).
Proof.
  induction pathParts as [|part rest IH]; intros i n currentPath current addr d' Hn;
    cbn [ensurePathFrom List.filter length] in *.
  { intros Hd. left. exists d'. by auto. }
  destruct (String.eqb part "") eqn:Hpart; cbn [negb].
  { apply IH. lia. }
  destruct (lookupChild part (Children current)) as [child|] eqn:Hl.
  - specialize (IH (i + 1) n (Join currentPath part) child).
    destruct (ensurePathFrom Join (i + 1) n (Join currentPath part) child rest)
      as [child' a']. cbn [fst] in *.
    destruct addr as [|k r]; cbn [nodeAt Children].
    + intros [= <-]. left. exists current. cbn [Value IsFile]. by auto.
    + rewrite lookupChild_updateChild, Hl.
      destruct (String.eqb part k) eqn:Hk.
      * apply String.eqb_eq in Hk. subst k. rewrite Hl. cbn [mbind option_bind].
        intros Hd. destruct (IH r d') as [(d & Hd0 & Hv & Hf)|(Hnone & Hpre & Hv & Hf)];
          [lia|done| |].
        -- left. exists d. split; [done|]. split; [done|].
           destruct Hf as [Hf|(Hf & k & r' & Heq)]; [by left|right].
           split; [done|]. exists k, r'. cbn [app]. by rewrite Heq.
        -- right. split; [done|]. split; [by apply prefix_cons|]. split; [done|].
           intros Hfile. by rewrite (Hf Hfile).
      * intros Hd. left. exists d'. by auto.
  - specialize (IH (i + 1) n (Join currentPath part)
                   (NewNode part (Join currentPath part) (i =? n - 1))).
    destruct (ensurePathFrom Join (i + 1) n (Join currentPath part) _ rest)
      as [child' a']. cbn [fst] in *.
    destruct addr as [|k r]; cbn [nodeAt Children].
    + intros [= <-]. left. exists current. cbn [Value IsFile].
      split; [done|]. split; [done|].
      destruct (IsFile current); [right|by left].
      split; [done|]. by eexists _, _.
    + rewrite lookupChild_snoc.
      destruct (lookupChild k (Children current)) as [c|] eqn:Hlk.
      * intros Hd. left. exists d'. by auto.
      * destruct (String.eqb part k) eqn:Hk; [|discriminate].
        apply String.eqb_eq in Hk. subst k. cbn [mbind option_bind].
        intros Hd. right. split; [done|].
        destruct (IH r d') as [(d & Hd0 & Hv & Hf)|(Hnone & Hpre & Hv & Hf)];
          [lia|done| |].
        -- apply nodeAt_NewNode in Hd0 as [-> ->]. cbn [Value IsFile] in *.
           split; [by apply prefix_cons, prefix_nil|]. split; [done|].
           intros Hfile.
           assert (rest = []) as ->.
           { destruct Hf as [Hf|[Hf _]].
             - rewrite Hfile in Hf. symmetry in Hf. apply Z.eqb_eq in Hf.
               destruct rest; [done|]. cbn [length] in Hn. lia.
             - apply Z.eqb_eq in Hf. destruct rest; [done|]. cbn [length] in Hn. lia. }
           done.
        -- split; [by apply prefix_cons|]. split; [done|].
           intros Hfile. by rewrite (Hf Hfile).
Qed.

(** A path that ends in a segment and whose node is not there yet gets a
    file node. *)
Lemma ensurePathFrom_creates_file pathParts : ∀ i n currentPath current,
  i + Z.of_nat (length pathParts) = n →
  List.last pathParts "" ≠ "" →
  nodeAt (List.filter (λ part, negb (String.eqb part "")) pathParts) current = None →
  ∃ d', nodeAt (List.filter (λ part, negb (String.eqb part "")) pathParts)
               (fst (ensurePathFrom Join i n currentPath current pathParts)) = Some d'
        ∧ IsFile d' = true.
Proof.
  induction pathParts as [|part rest IH]; intros i n currentPath current Hn Hlast;
    cbn [ensurePathFrom List.filter length] in *; [done|].
  assert (rest ≠ [] → List.last rest "" ≠ "") as Hlast'.
  { destruct rest; [done|]. intros _. by rewrite last_cons_cons in Hlast. }
  destruct (String.eqb part "") eqn:Hpart; cbn [negb].
  { intros Hnone. apply IH; [lia| |done]. apply Hlast'. intros ->.
    cbn [List.last] in Hlast. by apply String.eqb_eq in Hpart. }
  cbn [nodeAt].
  destruct (lookupChild part (Children current)) as [child|] eqn:Hl;
    cbn [mbind option_bind].
  - intros Hnone.
    assert (rest ≠ []) as Hrest by (by intros ->).
    destruct (IH (i + 1) n (Join currentPath part) child) as (d' & Hd' & Hf);
      [lia|by apply Hlast'|done|].
    destruct (ensurePathFrom Join (i + 1) n (Join currentPath part) child rest)
      as [child' a']. cbn [fst] in *.
    exists d'. split; [|done]. cbn [nodeAt Children].
    by rewrite lookupChild_updateChild, String.eqb_refl, Hl.
  - intros _.
    destruct rest as [|part' rest'].
    + cbn [ensurePathFrom List.filter fst nodeAt Children].
      rewrite lookupChild_snoc, Hl, String.eqb_refl. cbn [mbind option_bind].
      eexists. split; [done|]. cbn [NewNode IsFile]. apply Z.eqb_eq.
      cbn [length] in Hn. lia.
    + assert (List.filter (λ part, negb (String.eqb part "")) (part' :: rest') ≠ [])
        as Hne by (apply filter_last_nonempty, Hlast'; done).
      destruct (IH (i + 1) n (Join currentPath part)
                   (NewNode part (Join currentPath part) (i =? n - 1)))
        as (d' & Hd' & Hf); [lia|by apply Hlast'| |].
      { destruct (List.filter _ (part' :: rest')); [done|]. reflexivity. }
      destruct (ensurePathFrom Join (i + 1) n (Join currentPath part) _ (part' :: rest'))
        as [child' a']. cbn [fst] in *.
      exists d'. split; [|done]. cbn [nodeAt Children].
      by rewrite lookupChild_snoc, Hl, String.eqb_refl.
Qed.

Lemma apart_sym a b : apart a b → apart b a.
Proof. by intros [? ?]. Qed.

Lemma faithful_NewNode name : faithful [] (NewNode name "/" false).
Proof.
  repeat split.
  - intros addr [d Hd]. apply nodeAt_NewNode in Hd as [-> _]. by left.
  - intros addr d Hd%nodeAt_NewNode. by destruct Hd as [_ ->].
  - intros addr d Hd%nodeAt_NewNode _. by destruct Hd as [_ ->].
  - intros e He. by apply elem_of_nil in He.
Qed.

(** One iteration keeps the tree faithful when the new path stays apart
    from the paths already there. *)
Lemma insertEntry_faithful E t q w :
  faithful E t → w ≠ 0 →
  List.last (pathPartsOf q) "" ≠ "" →
  Forall (λ e : string * Z, apart (address q) (address (fst e))) E →
  faithful ((q, w) :: E) (insertEntry Join t (q, w)).
Proof.
  intros (Hcov & Hfiles & Hdirs & Htot & Hpres) Hw Hlast Hapart.
  rewrite Forall_forall in Hapart.
  rewrite insertEntry_unfold by done.
  set (a := address q) in *.
  set (t' := fst (ensurePath Join t (pathPartsOf q))).
  assert (a ≠ []) as Ha by (by apply filter_last_nonempty).
  assert (nodeAt a t = None) as Hnew.
  { destruct (nodeAt a t) as [d|] eqn:Hd; [|done].
    destruct (Hcov a) as [?|(e & He & Hpre)]; [by eexists|done|].
    by destruct (Hapart e He) as [? _]. }
  assert (∀ addr d', nodeAt addr t' = Some d' →
            (∃ d, nodeAt addr t = Some d ∧ Value d' = Value d ∧ IsFile d' = IsFile d)
            ∨ (nodeAt addr t = None ∧ addr `prefix_of` a ∧ Value d' = 0
               ∧ (IsFile d' = true → addr = a))) as Horigin.
  { intros addr d' Hd'.
    destruct (ensurePathFrom_origin (pathPartsOf q) 0 (Z.of_nat (length (pathPartsOf q)))
                "/" t addr d' (Z.add_0_l _) Hd')
      as [(d & Hd & Hv & Hf)|Hcase]; [left|by right].
    exists d. split; [done|]. split; [done|].
    destruct Hf as [Hf|(Hf & k & r & Heq)]; [done|].
    destruct (Hfiles addr d Hd Hf) as (e & He & ->).
    destruct (Hapart e He) as [_ Hno]. destruct Hno. exists (k :: r). exact Heq. }
  destruct (ensurePathFrom_creates_file (pathPartsOf q) 0
              (Z.of_nat (length (pathPartsOf q))) "/" t (Z.add_0_l _) Hlast Hnew)
    as (da & Hda & Hdafile).
  change (nodeAt a t' = Some da) in Hda.
  assert (Value da = 0) as Hdaval.
  { destruct (Horigin a da Hda) as [(d & Hd & _)|(_ & _ & Hv & _)]; [congruence|done]. }
  repeat split.
  - (* every node is on the way to an entry *)
    intros addr [d'' Hd''].
    destruct (setValue_origin a w t' addr d'' Hd'') as (d' & Hd' & _).
    destruct (Horigin addr d' Hd') as [(d & Hd & _)|(_ & Hpre & _)].
    + destruct (Hcov addr) as [?|(e & He & Hpre)]; [by eexists|by left|right].
      exists e. split; [by right|done].
    + right. exists (q, w). split; [by left|done].
  - (* the files are the nodes of the entries *)
    intros addr d'' Hd'' Hfile.
    destruct (setValue_origin a w t' addr d'' Hd'') as (d' & Hd' & Hf & _).
    rewrite Hf in Hfile.
    destruct (Horigin addr d' Hd') as [(d & Hd & _ & Hf')|(_ & _ & _ & Hend)].
    + rewrite Hf' in Hfile. destruct (Hfiles addr d Hd Hfile) as (e & He & ->).
      exists e. split; [by right|done].
    + exists (q, w). split; [by left|]. by apply Hend.
  - (* directories hold nothing *)
    intros addr d'' Hd'' Hdir.
    destruct (setValue_origin a w t' addr d'' Hd'') as (d' & Hd' & Hf & Hv).
    rewrite Hf in Hdir.
    destruct (decide (addr = a)) as [->|Hne].
    { rewrite Hda in Hd'. injection Hd' as <-. congruence. }
    rewrite Hv.
    destruct (Horigin addr d' Hd') as [(d & Hd & Hv' & Hf')|(_ & _ & Hv' & _)]; [|done].
    rewrite Hv'. apply (Hdirs addr d Hd). congruence.
  - (* the values add up *)
    rewrite (setValue_totalValue _ _ _ _ Hda), Hdaval.
    unfold t', ensurePath. rewrite ensurePathFrom_totalValue, Htot.
    unfold weightSum. cbn [List.map snd]. rewrite sumZ_cons. lia.
  - (* every entry is there *)
    intros e [->|He]%elem_of_cons.
    + cbn [fst snd]. fold a.
      destruct (setValue_at a w t' da Hda) as (d'' & Hd'' & Hv & _ & Hf).
      exists d''. split; [done|]. split; [congruence|done].
    + destruct (Hpres e He) as (d & Hd & Hf & Hv).
      destruct (ensurePathFrom_keeps Join (pathPartsOf q) 0
                  (Z.of_nat (length (pathPartsOf q))) "/" t _ d Hd) as (d' & Hd' & Hv' & _).
      change (nodeAt (address (fst e)) t' = Some d') in Hd'.
      destruct (setValue_keeps a w t' _ d' Hd') as (d'' & Hd'' & _).
      exists d''. split; [done|].
      destruct (setValue_origin a w t' _ d'' Hd'') as (d1 & Hd1 & Hf1 & Hv1).
      rewrite Hd' in Hd1. injection Hd1 as <-.
      destruct (Horigin _ d' Hd') as [(d0 & Hd0 & _ & Hf0)|(Hnone & _)]; [|congruence].
      rewrite Hd in Hd0. injection Hd0 as <-.
      split; [congruence|].
      rewrite Hv1, decide_False; [congruence|].
      intros Heq. destruct (Hapart e He) as [Hno _]. destruct Hno.
      rewrite <- Heq. done.
Qed.

Lemma fold_insertEntry_faithful rest : ∀ E t,
  faithful E t →
  Forall (λ e : string * Z, snd e ≠ 0) rest →
  separated rest →
  Forall (λ r : string * Z,
            Forall (λ e : string * Z, apart (address (fst r)) (address (fst e))) E) rest →
  faithful (rev rest ++ E) (fold_left (insertEntry Join) rest t).
Proof.
  induction rest as [|[q w] rest IH]; intros E t Hf Hw Hsep Hold; cbn [fold_left].
  - done.
  - inversion Hw as [|? ? Hw1 Hws]; subst. inversion Hold as [|? ? Ho1 Hos]; subst.
    destruct Hsep as (Hlast & Hrest & Hsep). cbn [fst snd] in *.
    cbn [rev]. rewrite <- app_assoc. cbn [app].
    apply IH; [by apply insertEntry_faithful|done|done|].
    rewrite Forall_forall in Hrest, Hos. apply Forall_forall. intros r Hr.
    constructor; [|by apply Hos]. cbn [fst]. by apply apart_sym, Hrest.
Qed.

(** The tree built from a separated weight map holds its entries and
    nothing else. *)
Lemma buildTree_faithful name entries :
  Forall (λ e : string * Z, snd e ≠ 0) entries → separated entries →
  faithful (rev entries) (buildTree Join name entries).
Proof.
  intros Hw Hsep. unfold buildTree.
  rewrite <- (app_nil_r (rev entries)).
  apply fold_insertEntry_faithful; [apply faithful_NewNode|done|done|].
  apply Forall_forall. intros r _. constructor.
Qed.

End Separated.

Lemma sumZ_files_all (l : list Node) :
  Forall (λ d, IsFile d = false → Value d = 0) l →
  sumZ (List.map Value (List.filter IsFile l)) = sumZ (List.map Value l).
Proof.
  induction 1 as [|d l Hd _ IH]; [done|].
  cbn [List.filter List.map]. destruct (IsFile d) eqn:Hf; cbn [List.map];
    rewrite !sumZ_cons, IH; [done|]. rewrite (Hd eq_refl). lia.
Qed.

(** X13. For a weight map whose paths stay apart (no path leads to or
    through the node of another, and every path ends in a segment), with
    weights of at least 1 adding up to at most [max_int]: the root of the
    aggregated tree holds exactly the sum of the weights, and every path
    is found in the tree as a file that holds its weight. *)
Theorem separated_weight_map_is_conserved `{Runtime} (Join : string → string → string)
        name entries :
  separated entries →
  Forall (λ e : string * Z, 1 ≤ snd e) entries →
  weightSum entries ≤ GoInt.max_int →
  Value (fst (aggregateCounts (buildTree Join name entries))) = weightSum entries
  ∧ ∀ p w, (p, w) ∈ entries →
           ∃ d, nodeAt (address p) (fst (aggregateCounts (buildTree Join name entries)))
                = Some d
                ∧ IsFile d = true ∧ Value d = w.
Proof.
  intros Hsep Hw1 Hmax.
  assert (Forall (λ e : string * Z, snd e ≠ 0) entries) as Hw0.
  { eapply Forall_impl; [exact Hw1|]. intros e He. cbn beta in *. lia. }
  assert (Forall (λ e : string * Z, 0 ≤ snd e) entries) as Hw.
  { eapply Forall_impl; [exact Hw1|]. intros e He. cbn beta in *. lia. }
  set (t0 := buildTree Join name entries).
  destruct (buildTree_faithful Join name entries Hw0 Hsep)
    as (_ & _ & Hdirs & Htot & Hpres). fold t0 in Hdirs, Htot, Hpres.
  pose proof (buildTree_wellFormed Join name entries) as Hwf. fold t0 in Hwf.
  pose proof (buildTree_keyed Join name entries) as Hk. fold t0 in Hk.
  destruct (buildTree_bounds Join name entries Hw) as [Hnn _]. fold t0 in Hnn.
  assert (weightSum (rev entries) = weightSum entries) as Hrev.
  { unfold weightSum. apply sumZ_perm, Permutation_map. symmetry. apply Permutation_rev. }
  assert (leafSum t0 = weightSum entries) as Hleaf.
  { rewrite <- Hrev, <- Htot. unfold leafSum, totalValue, files.
    apply sumZ_files_all. apply Forall_forall. intros d Hd Hf.
    destruct (nodes_have_addresses t0 d Hk Hd) as [addr Haddr].
    by apply (Hdirs addr d). }
  destruct (aggregateCounts_exact t0 Hwf (TreeClaims.nonNegative_files _ Hnn))
    as (Hret & _ & _ & _); [lia|].
  split.
  - by rewrite aggregateCounts_Value, Hret.
  - intros p w Hin.
    destruct (Hpres (p, w)) as (d & Hd & Hf & Hv).
    { apply list_elem_of_In. rewrite <- List.in_rev. by apply list_elem_of_In. }
    cbn [fst snd] in *. exists d.
    rewrite (aggregateCounts_nodeAt _ _ _ Hwf Hd).
    rewrite aggregateCounts_unfold, Hf. done.
Qed.

Lemma separated_weight_map_is_conserved_witness :
  separated threeFiles
  ∧ Forall (λ e : string * Z, 1 ≤ snd e) threeFiles
  ∧ weightSum threeFiles ≤ GoInt.max_int
  ∧ weightSum threeFiles = 3
  ∧ Value (fst (@aggregateCounts stable (buildTree join "repo" threeFiles)))
    = weightSum threeFiles.
Proof.
  assert (∀ a b : list string, bool_decide (a `prefix_of` b) = false → ¬ a `prefix_of` b)
    as Hdec by (intros a b Hb; by apply bool_decide_eq_false in Hb).
  assert (separated threeFiles) as Hsep.
  { cbn [separated threeFiles fst].
    repeat split; try discriminate; repeat constructor;
      try (apply Hdec; vm_compute; reflexivity). }
  assert (Forall (λ e : string * Z, 1 ≤ snd e) threeFiles) as Hw
    by (repeat constructor; cbn; lia).
  assert (weightSum threeFiles ≤ GoInt.max_int) as Hmax by (vm_compute; discriminate).
  split; [exact Hsep|]. split; [exact Hw|]. split; [exact Hmax|]. split; [reflexivity|].
  exact (proj1 (@separated_weight_map_is_conserved stable join "repo" threeFiles
                  Hsep Hw Hmax)).
Defined.

End SeparatedExtras.

(** ** [analyzeRepo] as a whole *)

Module AcquisitionExtras.
Import GoStrings GoFilepath Parser Tree TreeSpec Exporter Pipeline Acquisition.
Import Samples RuntimesFacts.

(** X14. [analyzeRepo] never panics and fails in two situations only:
    without a [.git] directory, in which case no command is run, and when
    [git log] fails both before and after the fetch attempts.  A fetch is
    attempted only after a failed [git log], the plain fetch only after a
    failed [--unshallow] one, and a failing fetch never fails the
    analysis: whenever one of the two [git log] runs succeeds, the result
    is the analysis of the text of the first that did. *)
Theorem analyzeRepo_outcomes `{Runtime} os Join (w : World) base :
  match analyzeRepo os Join w base with
  | (trace, Some (inl NotARepository)) =>
      statGitDir w = StatNotExist ∧ trace = []
  | (trace, Some (inl (GitLogFailed err))) =>
      statGitDir w ≠ StatNotExist
      ∧ is_Some (cmdErr (firstLog w)) ∧ cmdErr (secondLog w) = Some err
      ∧ (trace = [GitLog; GitFetchUnshallow; GitLog] ∧ cmdErr (fetchUnshallow w) = None
         ∨ trace = [GitLog; GitFetchUnshallow; GitFetch; GitLog]
           ∧ is_Some (cmdErr (fetchUnshallow w)))
  | (trace, Some (inr root)) =>
      statGitDir w ≠ StatNotExist
      ∧ (cmdErr (firstLog w) = None ∧ trace = [GitLog]
         ∧ analyze os Join base (cmdOutput (firstLog w)) = Some root
         ∨ is_Some (cmdErr (firstLog w)) ∧ cmdErr (secondLog w) = None
           ∧ analyze os Join base (cmdOutput (secondLog w)) = Some root
           ∧ (trace = [GitLog; GitFetchUnshallow; GitLog]
              ∧ cmdErr (fetchUnshallow w) = None
              ∨ trace = [GitLog; GitFetchUnshallow; GitFetch; GitLog]
                ∧ is_Some (cmdErr (fetchUnshallow w))))
  | (trace, None) => False
  end.
Proof.
  unfold analyzeRepo, acquire.
  destruct (statGitDir w) eqn:Hstat; [|done|].
  all: destruct (cmdErr (firstLog w)) as [e1|] eqn:H1; cbn [app].
  all: try (destruct (ParserExtras.analysis_never_panics os Join base
                        (cmdOutput (firstLog w))) as (_ & [root Hroot] & _);
            rewrite Hroot; cbn; split; [done|]; left; done).
  all: destruct (cmdErr (secondLog w)) as [e2|] eqn:H2.
  all: destruct (cmdErr (fetchUnshallow w)) as [e3|] eqn:H3; cbn [app].
  all: try (split; [done|]; split; [by eexists|]; split; [done|];
            first [left; done | right; split; [done|by eexists]]).
  all: destruct (ParserExtras.analysis_never_panics os Join base
                   (cmdOutput (secondLog w))) as (_ & [root Hroot] & _);
    rewrite Hroot; cbn; split; [done|]; right;
    split; [by eexists|]; split; [done|]; split; [done|];
    first [left; done | right; split; [done|by eexists]].
Qed.

End AcquisitionExtras.

(** ** The keys of the weight map *)

Module KeyExtras.
Import GoStrings GoStringsFacts GoFilepath GoScanner Parser ParserFacts ScannerExtras.

Lemma TrimLeft_head s cutset c rest :
  TrimLeft s cutset = String c rest → inCutset cutset c = false.
Proof.
  induction s as [|x s IH]; cbn [TrimLeft]; [discriminate|].
  destruct (inCutset cutset x) eqn:Hx; [exact IH|].
  by intros [= <- _].
Qed.

Lemma TrimLeft_keeps_absent s cutset d :
  Contains s (String d "") = false → Contains (TrimLeft s cutset) (String d "") = false.
Proof.
  induction s as [|x s IH]; cbn [TrimLeft]; [done|].
  intros Hs. destruct (inCutset cutset x); [|done].
  apply Contains_byte_cons in Hs as [_ Hs]. by apply IH.
Qed.

Lemma replaceByte_removes old new s :
  new ≠ old → Contains (replaceByte old new s) (String old "") = false.
Proof.
  intros Hne. induction s as [|x s IH]; cbn [replaceByte]; [done|].
  apply Contains_byte_cons. split; [|done].
  destruct (Ascii.eqb x old) eqn:Hx; [done|]. by apply Ascii.eqb_neq in Hx.
Qed.

(** Every key comes from an accepted line. *)
Lemma key_has_a_line os lines st p :
  processLines os initial lines = Some st →
  is_Some (fileChangeCounts st !! p) →
  ∃ line, line ∈ lines ∧ accepted os line = Some p.
Proof.
  intros Hst [v Hv].
  destruct (ParserClaims.processLines_counts os lines) as (st' & Hst' & Hm).
  rewrite Hst in Hst'. injection Hst' as <-.
  rewrite Hm in Hv. unfold occurrences in Hv.
  destruct (List.filter _ lines) as [|line rest] eqn:Hf; [discriminate|].
  assert (In line (List.filter (λ line, bool_decide (accepted os line = Some p)) lines))
    as Hin by (rewrite Hf; by left).
  apply List.filter_In in Hin as [Hin Hacc]. apply bool_decide_eq_true in Hacc.
  exists line. split; [by apply list_elem_of_In|done].
Qed.

(** Other white space can still lead a key: [TrimLeft] runs after
    [TrimSpace] and removes braces and spaces only, so a tab that follows
    a brace is kept. *)
Lemma key_may_start_with_tab :
  fileChangeCounts <$> parse Unix ("{a=>{" +:+ Samples.tab +:+ "b}")
  = Some {[ Samples.tab +:+ "b" := 1 ]}.
Proof. by vm_compute. Qed.

(** X15. Every key of the weight map is a non-empty path that starts
    neither with an opening brace nor with a space (the byte 32); on
    Windows it holds no backslash. *)
Theorem weight_map_keys_are_normalized os lines st p :
  processLines os initial lines = Some st →
  is_Some (fileChangeCounts st !! p) →
  p ≠ ""
  ∧ HasPrefix p "{" = false
  ∧ HasPrefix p " " = false
  ∧ (os = Windows → Contains p "\" = false).
Proof.
  intros Hst Hkey.
  destruct (key_has_a_line os lines st p Hst Hkey) as (line & _ & Hacc).
  unfold accepted in Hacc. destruct (String.eqb line ""); [discriminate|].
  destruct (splitLine line) as [[?|[[a d] f]]|]; try discriminate.
  destruct (String.eqb (normalize os f) "") eqn:Hne; [discriminate|].
  injection Hacc as <-. apply String.eqb_neq in Hne.
  split; [done|]. unfold normalize in *.
  destruct (TrimLeft (ToSlash os (TrimSpace f)) "{ ") as [|c rest] eqn:Ht; [done|].
  apply TrimLeft_head in Ht as Hc. rewrite <- Ht.
  assert (c ≠ "{"%char ∧ c ≠ " "%char) as [Hb Hs].
  { split; intros ->; vm_compute in Hc; discriminate. }
  rewrite Ht, !HasPrefix_byte, !bool_decide_eq_false_2 by congruence.
  split; [done|]. split; [done|]. intros ->. rewrite <- Ht.
  apply TrimLeft_keeps_absent. unfold ToSlash. cbn [Separator].
  change (Ascii.eqb "\" "/") with false. cbn match.
  by apply replaceByte_removes.
Qed.

Lemma weight_map_keys_are_normalized_witness :
  ∃ st, processLines Windows initial ["1 1 {{src\app.go"] = Some st
        ∧ is_Some (fileChangeCounts st !! "src/app.go")
        ∧ "src/app.go" ≠ ""
        ∧ HasPrefix "src/app.go" "{" = false
        ∧ HasPrefix "src/app.go" " " = false
        ∧ (Windows = Windows → Contains "src/app.go" "\" = false).
Proof.
  destruct (processLines_total Windows ["1 1 {{src\app.go"] initial) as [st Hst].
  exists st.
  assert (is_Some (fileChangeCounts st !! "src/app.go")) as Hkey.
  { vm_compute in Hst. injection Hst as <-. vm_compute. by eexists. }
  split; [exact Hst|]. split; [exact Hkey|].
  exact (weight_map_keys_are_normalized Windows _ st "src/app.go" Hst Hkey).
Defined.

End KeyExtras.
